(** * Study Toolkit API: schemas, summarizer and endpoint handlers

    A shallow embedding of [src/main.py] and [src/schemas.py].

    - Python [str] values are sequences of Unicode code points: [list N].
    - Python [int] values are unbounded: [Z].
    - Handler bodies run in a state-and-exception monad over the document
      store; [try ... except Exception as e] is an explicit handler. *)

From Stdlib Require Import ZArith NArith Strings.String Strings.Ascii Strings.Byte.
From stdpp Require Import base option list strings gmap fin_maps.

Local Open Scope N_scope.

(** ** Python strings *)

Module PyStr.

Abbreviation char := N (only parsing).
Abbreviation str := (list N) (only parsing).

(** A literal, given by its ASCII spelling. *)
Definition lit (s : string) : str :=
  N_of_ascii <$> list_ascii_of_string s.

(** [bool(s)] for a string: non-empty. *)
Definition truthy {A} (l : list A) : bool :=
  match l with [] => false | _ :: _ => true end.

(** [str.isspace] on one code point, the table behind [str.strip()]. *)
Definition isspace (c : char) : bool :=
  ((9 <=? c) && (c <=? 13))
  || ((28 <=? c) && (c <=? 32))
  || (c =? 133) || (c =? 160) || (c =? 5760)
  || ((8192 <=? c) && (c <=? 8202))
  || (c =? 8232) || (c =? 8233) || (c =? 8239) || (c =? 8287)
  || (c =? 12288).

(** [s.replace(old, new)] for one-character [old] and [new]. *)
Definition replace (old new : char) (s : str) : str :=
  (λ c, if c =? old then new else c) <$> s.

(** [s.split(sep)] for a one-character separator: never returns the
    empty list, [''.split('.') == ['']]. *)
Fixpoint split (sep : char) (s : str) : list str :=
  match s with
  | [] => [[]]
  | c :: s' =>
      if c =? sep then [] :: split sep s'
      else match split sep s' with
           | [] => [[c]]
           | f :: fs => (c :: f) :: fs
           end
  end.

Fixpoint lstrip (s : str) : str :=
  match s with
  | [] => []
  | c :: s' => if isspace c then lstrip s' else s
  end.

Definition rstrip (s : str) : str := reverse (lstrip (reverse s)).

(** [s.strip()] with no argument: drop leading and trailing whitespace. *)
Definition strip (s : str) : str := rstrip (lstrip s).

(** [sep.join(parts)]. *)
Fixpoint join (sep : str) (parts : list str) : str :=
  match parts with
  | [] => []
  | [p] => p
  | p :: ps => p ++ sep ++ join sep ps
  end.

(** [s[:n]] for a non-negative literal bound. *)
Definition slice_to (n : N) (s : str) : str := take (N.to_nat n) s.

End PyStr.

Import PyStr.

(** ** The summarizer ([simple_summarize], main.py) *)

Definition NEWLINE : N := 10.
Definition SPACE : N := 32.
Definition PERIOD : N := 46.

Definition no_content : list N := lit "No content to summarize.".

Definition simple_summarize (text : list N) : list N :=
  let sentences :=
    strip <$> filter (λ s, truthy (strip s) = true)
                     (split PERIOD (replace NEWLINE SPACE text)) in
  if negb (truthy sentences) then no_content
  else
    let selected := take 5 sentences in
    join (lit ". ") selected ++ (if truthy selected then lit "." else lit "").

(** The algorithm as the specification words it (section 4.3, steps 1-5). *)
Definition summarize_steps (text : list N) : list N :=
  let normalized := replace NEWLINE SPACE text in          (* step 1 *)
  let fragments := split PERIOD normalized in              (* step 2 *)
  let trimmed := strip <$> fragments in                    (* step 3 *)
  let kept := filter (λ s, s ≠ []) trimmed in
  match kept with
  | [] => no_content                                       (* step 4 *)
  | _ => join [PERIOD; SPACE] (take 5 kept) ++ [PERIOD]    (* step 5 *)
  end.

(** What every selected sentence satisfies: it is non-empty, already
    trimmed, and holds neither a period nor a newline. *)
Definition clean (s : list N) : Prop :=
  s ≠ [] ∧ strip s = s ∧ (PERIOD ∉ s) ∧ (NEWLINE ∉ s).

(** ** Decoding uploaded bytes

    [bytes.decode(errors="ignore")]: the built-in UTF-8 codec with the
    [ignore] error handler.  An ill-formed sequence is dropped up to its
    maximal well-formed prefix and decoding resumes at the next byte; a
    sequence cut short by the end of the data is dropped whole.  The
    function is total: no input raises. *)

Definition is_cont (b : N) : bool := (128 <=? b) && (b <? 192).

Definition cont_bits (b : N) : N := N.land b 63.

Fixpoint utf8_ignore (bs : list N) : list N :=
  match bs with
  | [] => []
  | b0 :: r =>
      if b0 <? 128 then b0 :: utf8_ignore r
      else if b0 <? 194 then utf8_ignore r
      else if b0 <? 224 then
        match r with
        | [] => []
        | b1 :: r1 =>
            if is_cont b1
            then (N.shiftl (N.land b0 31) 6 + cont_bits b1) :: utf8_ignore r1
            else utf8_ignore r
        end
      else if b0 <? 240 then
        match r with
        | [] => []
        | b1 :: r1 =>
            if negb (is_cont b1)
               || ((b0 =? 224) && (b1 <? 160))
               || ((b0 =? 237) && (160 <=? b1))
            then utf8_ignore r
            else match r1 with
                 | [] => []
                 | b2 :: r2 =>
                     if is_cont b2
                     then (N.shiftl (N.land b0 15) 12
                           + N.shiftl (cont_bits b1) 6 + cont_bits b2)
                          :: utf8_ignore r2
                     else utf8_ignore r1
                 end
        end
      else if b0 <? 245 then
        match r with
        | [] => []
        | b1 :: r1 =>
            if negb (is_cont b1)
               || ((b0 =? 240) && (b1 <? 144))
               || ((b0 =? 244) && (144 <=? b1))
            then utf8_ignore r
            else match r1 with
                 | [] => []
                 | b2 :: r2 =>
                     if negb (is_cont b2) then utf8_ignore r1
                     else match r2 with
                          | [] => []
                          | b3 :: r3 =>
                              if is_cont b3
                              then (N.shiftl (N.land b0 7) 18
                                    + N.shiftl (cont_bits b1) 12
                                    + N.shiftl (cont_bits b2) 6 + cont_bits b3)
                                   :: utf8_ignore r3
                              else utf8_ignore r2
                          end
                 end
        end
      else utf8_ignore r
  end.

Definition decode_ignore (content_bytes : list byte) : list N :=
  utf8_ignore (Byte.to_N <$> content_bytes).

(** ** Record schemas (schemas.py) *)

Module Note.
Record t := mk { title : str; content : str; topic : option str }.
End Note.

Module Flashcard.
Record t := mk { front : str; back : str; tag : option str }.
End Flashcard.

Module Question.
Record t := mk {
  question : str;
  options : list str;
  answer_index : Z;
  tag : option str }.
End Question.

Module Summary.
Record t := mk { file_name : str; text : str; summary : str }.
End Summary.

(** Request bodies before validation.  Every field carries a value of its
    declared type or is absent ([None]); for an [Optional] field [None]
    also stands for an explicit null. *)

Module NoteIn.
Record t := mk {
  title : option str; content : option str; topic : option str }.
End NoteIn.

Module FlashcardIn.
Record t := mk {
  front : option str; back : option str; tag : option str }.
End FlashcardIn.

Module QuestionIn.
Record t := mk {
  question : option str;
  options : option (list str);
  answer_index : option Z;
  tag : option str }.
End QuestionIn.

Inductive error_kind :=
| missing
| too_short (min_items : nat)
| greater_than_equal (ge : Z).

(** One entry per offending field, in declaration order. *)
Definition ValidationError := list (string * error_kind).

(** [Field(...)]: the field is required. *)
Definition required {A} (loc : string) (v : option A) : ValidationError :=
  match v with
  | None => [(loc, missing)]
  | Some _ => []
  end.

(** [Field(..., min_items=n)] on a list. *)
Definition required_min_items {A} (loc : string) (n : nat)
    (v : option (list A)) : ValidationError :=
  match v with
  | None => [(loc, missing)]
  | Some l => if (length l <? n)%nat then [(loc, too_short n)] else []
  end.

(** [Field(..., ge=b)] on an integer. *)
Definition required_ge (loc : string) (b : Z) (v : option Z)
    : ValidationError :=
  match v with
  | None => [(loc, missing)]
  | Some i => if (i <? b)%Z then [(loc, greater_than_equal b)] else []
  end.

Definition validate_Note (b : NoteIn.t) : ValidationError + Note.t :=
  let errors :=
    required "title" (NoteIn.title b) ++ required "content" (NoteIn.content b) in
  match errors, NoteIn.title b, NoteIn.content b with
  | [], Some t, Some c => inr (Note.mk t c (NoteIn.topic b))
  | _, _, _ => inl errors
  end.

Definition validate_Flashcard (b : FlashcardIn.t)
    : ValidationError + Flashcard.t :=
  let errors :=
    required "front" (FlashcardIn.front b)
    ++ required "back" (FlashcardIn.back b) in
  match errors, FlashcardIn.front b, FlashcardIn.back b with
  | [], Some f, Some k => inr (Flashcard.mk f k (FlashcardIn.tag b))
  | _, _, _ => inl errors
  end.

Definition validate_Question (b : QuestionIn.t)
    : ValidationError + Question.t :=
  let errors :=
    required "question" (QuestionIn.question b)
    ++ required_min_items "options" 2 (QuestionIn.options b)
    ++ required_ge "answer_index" 0 (QuestionIn.answer_index b) in
  match errors, QuestionIn.question b, QuestionIn.options b,
        QuestionIn.answer_index b with
  | [], Some q, Some o, Some i => inr (Question.mk q o i (QuestionIn.tag b))
  | _, _, _, _ => inl errors
  end.

(** A validated model instance, as handed to the store adapter. *)
Inductive model :=
| MNote (n : Note.t)
| MFlashcard (c : Flashcard.t)
| MQuestion (q : Question.t)
| MSummary (s : Summary.t).

(** ** Exceptions and the handler monad *)

(** A Python [Exception]; [str(e)] is its message. *)
Inductive exn := Exception (msg : str).

Definition str_exn (e : exn) : str :=
  match e with Exception msg => msg end.

(** ** Document store adapter ([database.py], not part of the sources) *)

(** Modelled from the spec: a field value of a stored document. *)
Inductive value :=
| VNone
| VStr (s : str)
| VInt (z : Z)
| VList (l : list str).

#[global] Instance value_eq_dec : EqDecision value.
Proof. solve_decision. Defined.

(** Modelled from the spec: a document identifier, either the store's native
    one or its text rendering. *)
Inductive ident :=
| ObjectId (n : N)
| IdStr (s : str).

(** Modelled from the spec: a stored document, the identifier it received
    on insertion and its fields. *)
Record Document := mkDoc { _id : ident; fields : gmap string value }.

(** Modelled from the spec: the store connection of section 4.1 and 5.  It is
    set up once; [outage = Some msg] is a store that is unavailable (or
    rejects the operation), every adapter call then fails with a
    StorageError whose text is [msg].  [collections] maps a collection name
    to its documents in insertion order, [next_id] is the source of
    store-generated identifiers, [calls] counts adapter invocations. *)
Record Store := mkStore {
  outage : option str;
  next_id : N;
  collections : gmap string (list Document);
  calls : nat }.

Definition M (A : Type) : Type := Store → (exn + A) * Store.

#[global] Instance M_ret : MRet M := λ A a st, (inr a, st).

#[global] Instance M_bind : MBind M := λ A B f m st,
  match m st with
  | (inl e, st') => (inl e, st')
  | (inr a, st') => f a st'
  end.

(** Modelled from the spec: lower-case hexadecimal digits, for the text
    rendering of identifiers. *)
Definition hex_digit (d : N) : N := if d <? 10 then 48 + d else 87 + d.

Fixpoint hex (width : nat) (n : N) : str :=
  match width with
  | O => []
  | S w => hex w (n / 16) ++ [hex_digit (n mod 16)]
  end.

(** Modelled from the spec: the stable text rendering of a store-generated
    identifier (section 3, section 9), here 24 hexadecimal digits. *)
Definition str_ident (i : ident) : str :=
  match i with
  | ObjectId n => hex 24 n
  | IdStr s => s
  end.

Definition opt_str (o : option str) : value :=
  match o with
  | None => VNone
  | Some s => VStr s
  end.

(** Modelled from the spec: the structured data of a record (section 3),
    one entry per schema field. *)
Definition model_dump (data : model) : gmap string value :=
  match data with
  | MNote n =>
      {[ "title" := VStr (Note.title n);
         "content" := VStr (Note.content n);
         "topic" := opt_str (Note.topic n) ]}
  | MFlashcard c =>
      {[ "front" := VStr (Flashcard.front c);
         "back" := VStr (Flashcard.back c);
         "tag" := opt_str (Flashcard.tag c) ]}
  | MQuestion q =>
      {[ "question" := VStr (Question.question q);
         "options" := VList (Question.options q);
         "answer_index" := VInt (Question.answer_index q);
         "tag" := opt_str (Question.tag q) ]}
  | MSummary s =>
      {[ "file_name" := VStr (Summary.file_name s);
         "text" := VStr (Summary.text s);
         "summary" := VStr (Summary.summary s) ]}
  end.

(** Modelled from the spec: the documents of a named collection, none when
    the collection was never written to. *)
Definition collection (st : Store) (collection_name : string) : list Document :=
  default [] (collections st !! collection_name).

(** Modelled from the spec: the store after an adapter call that changed
    no collection. *)
Definition called (st : Store) : Store :=
  mkStore (outage st) (next_id st) (collections st) (S (calls st)).

(** Modelled from the spec: the store after one insertion.  The document
    receives the next store-generated identifier and goes to the end of the
    named collection. *)
Definition stored (st : Store) (collection_name : string) (data : model)
    : Store :=
  let doc := mkDoc (ObjectId (next_id st)) (model_dump data) in
  mkStore None (next_id st + 1)
    (<[collection_name := collection st collection_name ++ [doc]]>
       (collections st))
    (S (calls st)).

(** Modelled from the spec: [insert] of section 4.1.  Appends one document
    to the named collection and returns the new identifier as text; fails
    with the store's error when the store is unavailable. *)
Definition create_document (collection_name : string) (data : model) : M str :=
  λ st,
    match outage st with
    | Some msg => (inl (Exception msg), called st)
    | None =>
        (inr (str_ident (ObjectId (next_id st))),
         stored st collection_name data)
    end.

(** Modelled from the spec: a document matches a filter when it has every
    field of the filter with the expected value. *)
Definition matches (filter_dict : gmap string value) (d : Document) : Prop :=
  map_Forall (λ k v, fields d !! k = Some v) filter_dict.

#[global] Instance matches_dec flt d : Decision (matches flt d).
Proof. unfold matches. apply _. Defined.

(** Modelled from the spec: [query] of section 4.1.  The empty filter
    matches every document; with a limit at most that many documents are
    returned, in store order. *)
Definition get_documents (collection_name : string)
    (filter_dict : gmap string value) (limit : option Z)
    : M (list Document) :=
  λ st,
    match outage st with
    | Some msg => (inl (Exception msg), called st)
    | None =>
        let found := filter (matches filter_dict) (collection st collection_name) in
        (inr (match limit with
              | None => found
              | Some n => take (Z.to_nat n) found
              end),
         called st)
    end.

(** ** HTTP endpoint layer (main.py) *)

Inductive payload :=
| PId (id : str)
| PDocs (docs : list Document)
| PSummary (id : str) (summary : str).

Inductive response :=
| Response200 (body : payload)
| HTTPException (status_code : Z) (detail : str)
| RequestValidationError (errors : ValidationError).

(** [try: body except Exception as e:
       raise HTTPException(status_code=500, detail=str(e))] *)
Definition try_except (body : M payload) : Store → response * Store :=
  λ st,
    match body st with
    | (inr r, st') => (Response200 r, st')
    | (inl e, st') => (HTTPException 500 (str_exn e), st')
    end.

(** [d["_id"] = str(d["_id"])] *)
Definition stringify_id (d : Document) : Document :=
  mkDoc (IdStr (str_ident (_id d))) (fields d).

(** [{name: v} if v else {}]: [None] and the empty string are both falsy. *)
Definition filter_if (name : string) (v : option str) : gmap string value :=
  match v with
  | Some s => if truthy s then {[ name := VStr s ]} else ∅
  | None => ∅
  end.

Definition create_note_body (note : Note.t) : M payload :=
  inserted_id ← create_document "note" (MNote note);
  mret (PId inserted_id).

Definition create_note (note : Note.t) := try_except (create_note_body note).

Definition list_notes_body (topic : option str) : M payload :=
  let filter_dict := filter_if "topic" topic in
  notes ← get_documents "note" filter_dict None;
  mret (PDocs (stringify_id <$> notes)).

Definition list_notes (topic : option str) :=
  try_except (list_notes_body topic).

Definition create_flashcard_body (card : Flashcard.t) : M payload :=
  inserted_id ← create_document "flashcard" (MFlashcard card);
  mret (PId inserted_id).

Definition create_flashcard (card : Flashcard.t) :=
  try_except (create_flashcard_body card).

Definition list_flashcards_body (tag : option str) : M payload :=
  let filter_dict := filter_if "tag" tag in
  cards ← get_documents "flashcard" filter_dict None;
  mret (PDocs (stringify_id <$> cards)).

Definition list_flashcards (tag : option str) :=
  try_except (list_flashcards_body tag).

Definition create_question_body (q : Question.t) : M payload :=
  inserted_id ← create_document "question" (MQuestion q);
  mret (PId inserted_id).

Definition create_question (q : Question.t) :=
  try_except (create_question_body q).

Definition list_questions_body (tag : option str) : M payload :=
  let filter_dict := filter_if "tag" tag in
  questions ← get_documents "question" filter_dict None;
  mret (PDocs (stringify_id <$> questions)).

Definition list_questions (tag : option str) :=
  try_except (list_questions_body tag).

Definition list_summaries_body (limit : Z) : M payload :=
  docs ← get_documents "summary" ∅ (Some limit);
  mret (PDocs (stringify_id <$> docs)).

Definition list_summaries (limit : Z) :=
  try_except (list_summaries_body limit).

(** An uploaded file: its name and the bytes [await file.read()] yields. *)
Record UploadFile := mkUpload { filename : str; file_bytes : list byte }.

Definition placeholder : list N :=
  lit "(Binary file uploaded; text extraction not available in demo)".

Section Upload.

(** [bytes.decode(errors="ignore")]; [decode_ignore] is the built-in. *)
Variable decode : list byte → list N.

(** The text the handler works on: the decoded upload, or the placeholder
    when that is empty or blank. *)
Definition upload_text (file : UploadFile) : list N :=
  let text := decode (file_bytes file) in
  if negb (truthy text) || (length (strip text) =? 0)%nat
  then placeholder
  else text.

Definition summarize_file_body (file : UploadFile) : M payload :=
  let text := upload_text file in
  let summary := simple_summarize text in
  let data := Summary.mk (filename file) (slice_to 10000 text) summary in
  inserted_id ← create_document "summary" (MSummary data);
  mret (PSummary inserted_id summary).

Definition summarize_file (file : UploadFile) :=
  try_except (summarize_file_body file).

(** The operations of the endpoint layer, each with its validated input. *)
Inductive operation :=
| CreateNote (note : Note.t)
| ListNotes (topic : option str)
| CreateFlashcard (card : Flashcard.t)
| ListFlashcards (tag : option str)
| CreateQuestion (q : Question.t)
| ListQuestions (tag : option str)
| SummarizeFile (file : UploadFile)
| ListSummaries (limit : Z).

Definition handler_body (op : operation) : M payload :=
  match op with
  | CreateNote note => create_note_body note
  | ListNotes topic => list_notes_body topic
  | CreateFlashcard card => create_flashcard_body card
  | ListFlashcards tag => list_flashcards_body tag
  | CreateQuestion q => create_question_body q
  | ListQuestions tag => list_questions_body tag
  | SummarizeFile file => summarize_file_body file
  | ListSummaries limit => list_summaries_body limit
  end.

Definition handler (op : operation) : Store → response * Store :=
  match op with
  | CreateNote note => create_note note
  | ListNotes topic => list_notes topic
  | CreateFlashcard card => create_flashcard card
  | ListFlashcards tag => list_flashcards tag
  | CreateQuestion q => create_question q
  | ListQuestions tag => list_questions tag
  | SummarizeFile file => summarize_file file
  | ListSummaries limit => list_summaries limit
  end.

End Upload.

(** Request dispatch: the body of a POST is validated against the
    handler's schema first; the handler runs only on a valid model. *)
Definition validated {B T} (validate : B → ValidationError + T)
    (h : T → Store → response * Store) (b : B) (st : Store)
    : response * Store :=
  match validate b with
  | inl errors => (RequestValidationError errors, st)
  | inr m => h m st
  end.

Definition post_notes := validated validate_Note create_note.
Definition post_flashcards := validated validate_Flashcard create_flashcard.
Definition post_questions := validated validate_Question create_question.

(** A healthy store with nothing in it. *)
Definition empty_store : Store := mkStore None 0 ∅ 0.

(** The [sentences] list of [simple_summarize]: the trimmed, non-empty
    fragments of the normalized text, in order. *)
Definition sentences (text : list N) : list (list N) :=
  strip <$> filter (λ s, truthy (strip s) = true)
                   (split PERIOD (replace NEWLINE SPACE text)).

(** Number of occurrences of a code point. *)
Definition count (c : N) (s : list N) : nat := length (filter (λ d, d = c) s).

(** ** The diagnostic endpoint ([test_database], main.py) *)

(** Reading an attribute of an object: absent ([hasattr] is false), present
    with a value, or a property whose getter raises. *)
Inductive attr :=
| NoAttr
| Attr (v : str)
| AttrRaises (e : exn).

(** The module-level [db] handle as [test_database] uses it: its [name]
    attribute and what [list_collection_names()] does. *)
Record DbHandle := mkDb {
  db_name : attr;
  list_collection_names : exn + list str }.

Module Diag.
Record t := mk {
  backend : str;
  database : str;
  database_url : option str;
  database_name : option str;
  connection_status : str;
  collections : list str }.
End Diag.

Definition CHECK : N := 9989.
Definition CROSS : N := 10060.
Definition WARNING : list N := [9888; 65039].

(** Statements of the handler: they update the response dictionary and may
    raise; the dictionary keeps what was written before an exception. *)
Definition D (A : Type) : Type := Diag.t → (exn + A) * Diag.t.

#[global] Instance D_ret : MRet D := λ A a r, (inr a, r).

#[global] Instance D_bind : MBind D := λ A B f m r,
  match m r with
  | (inl e, r') => (inl e, r')
  | (inr a, r') => f a r'
  end.

Definition d_raise {A} (e : exn) : D A := λ r, (inl e, r).

(** [try: body except Exception as e: handler(e)] *)
Definition d_try (body : D unit) (handler : exn → D unit) : D unit :=
  λ r,
    match body r with
    | (inl e, r') => handler e r'
    | ok => ok
    end.

Definition set_database (v : str) : D unit := λ r,
  (inr (), Diag.mk (Diag.backend r) v (Diag.database_url r)
             (Diag.database_name r) (Diag.connection_status r)
             (Diag.collections r)).

Definition set_database_url (v : str) : D unit := λ r,
  (inr (), Diag.mk (Diag.backend r) (Diag.database r) (Some v)
             (Diag.database_name r) (Diag.connection_status r)
             (Diag.collections r)).

Definition set_database_name (v : str) : D unit := λ r,
  (inr (), Diag.mk (Diag.backend r) (Diag.database r) (Diag.database_url r)
             (Some v) (Diag.connection_status r) (Diag.collections r)).

Definition set_connection_status (v : str) : D unit := λ r,
  (inr (), Diag.mk (Diag.backend r) (Diag.database r) (Diag.database_url r)
             (Diag.database_name r) v (Diag.collections r)).

Definition set_collections (v : list str) : D unit := λ r,
  (inr (), Diag.mk (Diag.backend r) (Diag.database r) (Diag.database_url r)
             (Diag.database_name r) (Diag.connection_status r) v).

(** [db.name if hasattr(db, 'name') else default]: [hasattr] is false only
    for a missing attribute, a raising getter propagates. *)
Definition name_or (h : DbHandle) (default : str) : D str :=
  match db_name h with
  | NoAttr => mret default
  | Attr v => mret v
  | AttrRaises e => d_raise e
  end.

Definition call_list_collection_names (h : DbHandle) : D (list str) :=
  match list_collection_names h with
  | inl e => d_raise e
  | inr names => mret names
  end.

(** [os.getenv(name)] as a condition: set, and not to the empty string. *)
Definition getenv_truthy (env : gmap string (list N)) (name : string) : bool :=
  match env !! name with
  | Some v => truthy v
  | None => false
  end.

Definition set_or_not (b : bool) : list N :=
  if b then CHECK :: lit " Set" else CROSS :: lit " Not Set".

Definition test_database (db : option DbHandle) (env : gmap string (list N))
    : Diag.t :=
  let response :=
    Diag.mk (CHECK :: lit " Running") (CROSS :: lit " Not Available")
      None None (lit "Not Connected") [] in
  let body : D unit :=
    d_try
      (match db with
       | Some h =>
           set_database (CHECK :: lit " Available");;
           set_database_url (CHECK :: lit " Configured");;
           name ← name_or h (CHECK :: lit " Connected");
           set_database_name name;;
           set_connection_status (lit "Connected");;
           d_try
             (collections ← call_list_collection_names h;
              set_collections (take 10 collections);;
              set_database (CHECK :: lit " Connected & Working"))
             (λ e, set_database
                     (WARNING ++ lit "  Connected but Error: "
                      ++ take 50 (str_exn e)))
       | None =>
           set_database (WARNING ++ lit "  Available but not initialized")
       end)
      (λ e, set_database (CROSS :: lit " Error: " ++ take 50 (str_exn e))) in
  let response := snd (body response) in
  let response :=
    snd (set_database_url (set_or_not (getenv_truthy env "DATABASE_URL"))
           response) in
  let response :=
    snd (set_database_name (set_or_not (getenv_truthy env "DATABASE_NAME"))
           response) in
  response.

(** An upload of 10,000 letters [a] followed by one [b]. *)
Definition long_upload : UploadFile :=
  mkUpload (lit "long.txt") (replicate (N.to_nat 10000) x61 ++ [x62]).

(** * Properties *)

(** ** Python string operations *)

Section PyStrFacts.

Implicit Types (s f : list N) (c : N) (fs ss : list (list N)).

Lemma truthy_true {A} (l : list A) : truthy l = true ↔ l ≠ [].
Proof. destruct l; simpl; split; congruence. Qed.

Lemma truthy_take {A} (l : list A) n :
  truthy l = true → truthy (take (S n) l) = true.
Proof. by destruct l. Qed.

(** Filtering on the stripped fragment and then stripping is stripping and
    then filtering. *)
Lemma strip_filter_comm fs :
  strip <$> filter (λ s, truthy (strip s) = true) fs
  = filter (λ s, s ≠ []) (strip <$> fs).
Proof.
  induction fs as [|f fs IH]; [done|].
  rewrite fmap_cons, !filter_cons.
  destruct (decide (truthy (strip f) = true)) as [Ht|Ht];
    destruct (decide (strip f ≠ [])) as [Hn|Hn].
  - by rewrite fmap_cons, IH.
  - by apply truthy_true in Ht.
  - by apply truthy_true in Hn.
  - done.
Qed.

Lemma replace_id old new s : old ∉ s → replace old new s = s.
Proof.
  induction s as [|c s IH]; [done|].
  rewrite not_elem_of_cons. intros [Hc Hs]. unfold replace in *.
  rewrite fmap_cons, IH by done.
  destruct (N.eqb_spec c old); congruence.
Qed.

Lemma split_no_sep sep s : sep ∉ s → split sep s = [s].
Proof.
  induction s as [|c s IH]; [done|].
  rewrite not_elem_of_cons. intros [Hc Hs]. simpl.
  destruct (N.eqb_spec c sep); [congruence|]. by rewrite IH.
Qed.

Lemma split_app_sep sep f s :
  sep ∉ f → split sep (f ++ sep :: s) = f :: split sep s.
Proof.
  induction f as [|c f IH]; simpl.
  - intros _. by rewrite N.eqb_refl.
  - rewrite not_elem_of_cons. intros [Hc Hf].
    destruct (N.eqb_spec c sep); [congruence|]. by rewrite IH.
Qed.

Lemma split_join sep fs :
  fs ≠ [] → Forall (λ f, sep ∉ f) fs → split sep (join [sep] fs) = fs.
Proof.
  induction fs as [|f fs IH]; [done|]. intros _ Hall.
  apply Forall_cons in Hall as [Hf Hfs].
  destruct fs as [|g fs]; [by apply split_no_sep|].
  change (join [sep] (f :: g :: fs)) with (f ++ sep :: join [sep] (g :: fs)).
  rewrite split_app_sep by done. f_equal. by apply IH.
Qed.

Lemma split_fragments sep s :
  Forall (λ f, (sep ∉ f) ∧ (f ⊆ s)) (split sep s).
Proof.
  induction s as [|c s IH]; simpl.
  - constructor; [|constructor]. split; [apply not_elem_of_nil | done].
  - destruct (N.eqb_spec c sep) as [->|Hne].
    + constructor.
      { split; [apply not_elem_of_nil | apply list_subseteq_nil]. }
      eapply Forall_impl; [exact IH|]. simpl. intros f [Hf Hsub].
      split; [done|]. by apply list_subseteq_cons.
    + destruct (split sep s) as [|f fs].
      { constructor; [|constructor]. split.
        - rewrite not_elem_of_cons. split; [congruence | apply not_elem_of_nil].
        - intros x Hx. apply list_elem_of_singleton in Hx as ->. by left. }
      apply Forall_cons in IH as [[Hf Hsub] Hfs].
      constructor.
      { split; [rewrite not_elem_of_cons; split; [congruence | done]|].
        intros x. rewrite !elem_of_cons. intros [->|Hx]; [by left|].
        right. by apply Hsub. }
      eapply Forall_impl; [exact Hfs|]. simpl. intros g [Hg Hgs].
      split; [done|]. by apply list_subseteq_cons.
Qed.

Lemma lstrip_subseteq s : lstrip s ⊆ s.
Proof.
  induction s as [|c s IH]; [done|]. simpl.
  destruct (isspace c); [by apply list_subseteq_cons | done].
Qed.

Lemma rstrip_subseteq s : rstrip s ⊆ s.
Proof.
  unfold rstrip. intros c. rewrite elem_of_reverse. intros Hc.
  apply lstrip_subseteq in Hc. by apply elem_of_reverse.
Qed.

Lemma strip_subseteq s : strip s ⊆ s.
Proof.
  unfold strip. etrans; [apply rstrip_subseteq | apply lstrip_subseteq].
Qed.

Lemma lstrip_idemp s : lstrip (lstrip s) = lstrip s.
Proof.
  induction s as [|c s IH]; [done|]. simpl.
  destruct (isspace c) eqn:Hc; [done|]. simpl. by rewrite Hc.
Qed.

Lemma lstrip_snoc s c :
  isspace c = false → lstrip (s ++ [c]) = lstrip s ++ [c].
Proof.
  intros Hc. induction s as [|d s IH]; simpl.
  - by rewrite Hc.
  - by destruct (isspace d).
Qed.

Lemma rstrip_cons c s :
  isspace c = false → rstrip (c :: s) = c :: rstrip s.
Proof.
  intros Hc. unfold rstrip.
  by rewrite reverse_cons, lstrip_snoc, reverse_snoc.
Qed.

Lemma rstrip_idemp s : rstrip (rstrip s) = rstrip s.
Proof. unfold rstrip. by rewrite reverse_involutive, lstrip_idemp. Qed.

Lemma lstrip_head s :
  match lstrip s with [] => True | c :: _ => isspace c = false end.
Proof.
  induction s as [|c s IH]; [done|]. simpl.
  destruct (isspace c) eqn:Hc; [done|]. done.
Qed.

Lemma lstrip_strip s : lstrip (strip s) = strip s.
Proof.
  unfold strip. pose proof (lstrip_head s) as Hh.
  destruct (lstrip s) as [|c t]; [done|].
  rewrite rstrip_cons by done. simpl. by rewrite Hh.
Qed.

Lemma strip_idemp s : strip (strip s) = strip s.
Proof.
  unfold strip at 1. rewrite lstrip_strip.
  unfold strip. apply rstrip_idemp.
Qed.

Lemma strip_space_cons c s : isspace c = true → strip (c :: s) = strip s.
Proof. intros Hc. unfold strip. simpl. by rewrite Hc. Qed.

Lemma join_cons_head sep c s ss :
  join sep ((c :: s) :: ss) = c :: join sep (s :: ss).
Proof. by destruct ss. Qed.

Lemma join_cons_cons sep s t ss :
  join sep (s :: t :: ss) = s ++ sep ++ join sep (t :: ss).
Proof. done. Qed.

(** A summary read as a period-joined list of pieces: each piece after the
    first carries the space of the separator, and the trailing period
    leaves an empty last piece. *)
Lemma join_period_space s ss :
  join [PERIOD; SPACE] (s :: ss) ++ [PERIOD]
  = join [PERIOD] (s :: ((SPACE ::.) <$> ss) ++ [[]]).
Proof.
  revert s. induction ss as [|t ss IH]; intros s; [done|].
  rewrite join_cons_cons, <- !app_assoc, IH.
  rewrite fmap_cons. cbn [app]. by rewrite join_cons_cons, join_cons_head.
Qed.

Lemma replace_fresh old new s : old ≠ new → old ∉ replace old new s.
Proof.
  intros Hne. induction s as [|c s IH]; [apply not_elem_of_nil|].
  unfold replace in *. rewrite fmap_cons, not_elem_of_cons. split; [|done].
  destruct (N.eqb_spec c old); congruence.
Qed.

Lemma join_not_elem c sep ss :
  c ∉ sep → Forall (λ s, c ∉ s) ss → c ∉ join sep ss.
Proof.
  intros Hsep. induction 1 as [|s ss Hs Hss IH]; [apply not_elem_of_nil|].
  destruct ss as [|t ss]; [done|].
  rewrite join_cons_cons, !not_elem_of_app. auto.
Qed.

End PyStrFacts.

(** ** The summarizer *)

(** C1. For every input text the summarizer computes what the five steps of
    the specification describe: newlines become spaces, the text is split
    on the period, fragments are trimmed and empty ones discarded, no
    fragment left gives "No content to summarize.", otherwise the first five
    fragments are joined with ". " and a "." is appended. *)
Theorem simple_summarize_steps (text : list N) :
  simple_summarize text = summarize_steps text.
Proof.
  unfold simple_summarize, summarize_steps.
  rewrite strip_filter_comm.
  destruct (filter _ _) as [|k kept] eqn:Hk; [done|].
  simpl negb. cbv iota.
  by rewrite (truthy_take (k :: kept) 4).
Qed.

Lemma sentences_clean (text : list N) :
  Forall clean
    (strip <$> filter (λ s, truthy (strip s) = true)
                      (split PERIOD (replace NEWLINE SPACE text))).
Proof.
  apply Forall_fmap, Forall_forall. intros f Hf.
  apply list_elem_of_filter in Hf as [Ht Hf].
  pose proof (split_fragments PERIOD (replace NEWLINE SPACE text)) as Hall.
  rewrite Forall_forall in Hall. destruct (Hall f Hf) as [Hp Hsub].
  repeat split.
  - by apply truthy_true.
  - apply strip_idemp.
  - intros Hin. by apply Hp, strip_subseteq.
  - intros Hin. apply strip_subseteq, Hsub in Hin.
    by apply (replace_fresh NEWLINE SPACE text) in Hin.
Qed.

Lemma filter_clean (ss : list (list N)) :
  Forall clean ss → filter (λ s, s ≠ []) (ss ++ [[]]) = ss.
Proof.
  induction 1 as [|s ss [Hs _] _ IH]; [done|].
  cbn [app]. rewrite filter_cons_True by done. by rewrite IH.
Qed.

Lemma strip_pieces (ss : list (list N)) :
  Forall clean ss → strip <$> ((SPACE ::.) <$> ss) = ss.
Proof.
  induction 1 as [|s ss (_ & Hs & _) _ IH]; [done|].
  rewrite !fmap_cons, IH, strip_space_cons by done. by rewrite Hs.
Qed.

(** A summary built from at most five clean sentences is a fixed point. *)
Lemma summary_fixed (s : list N) (ss : list (list N)) :
  (length (s :: ss) ≤ 5)%nat → Forall clean (s :: ss) →
  simple_summarize (join [PERIOD; SPACE] (s :: ss) ++ [PERIOD])
  = join [PERIOD; SPACE] (s :: ss) ++ [PERIOD].
Proof.
  intros Hlen Hall.
  assert (Hpieces : Forall (λ f, PERIOD ∉ f) (s :: ((SPACE ::.) <$> ss) ++ [[]])).
  { apply Forall_cons in Hall as [(_ & _ & Hs & _) Hss].
    constructor; [done|]. apply Forall_app. split.
    - apply Forall_fmap. eapply Forall_impl; [exact Hss|].
      intros t (_ & _ & Ht & _). simpl. rewrite not_elem_of_cons. by split.
    - constructor; [apply not_elem_of_nil | constructor]. }
  assert (Hnl : NEWLINE ∉ join [PERIOD; SPACE] (s :: ss) ++ [PERIOD]).
  { rewrite not_elem_of_app. split.
    - apply join_not_elem.
      + rewrite !not_elem_of_cons. repeat split; [done..|apply not_elem_of_nil].
      + eapply Forall_impl; [exact Hall|]. by intros t (_ & _ & _ & Ht).
    - rewrite not_elem_of_cons. split; [done | apply not_elem_of_nil]. }
  assert (Hsent :
    strip <$> filter (λ f, truthy (strip f) = true)
      (split PERIOD
         (replace NEWLINE SPACE (join [PERIOD; SPACE] (s :: ss) ++ [PERIOD])))
    = s :: ss).
  { rewrite replace_id by done.
    rewrite join_period_space, split_join by done.
    rewrite strip_filter_comm, fmap_cons, fmap_app.
    apply Forall_cons in Hall as [(Hne & Hs & _) Hss].
    rewrite strip_pieces by done. rewrite Hs.
    rewrite filter_cons_True by done. by rewrite filter_clean. }
  unfold simple_summarize. rewrite Hsent.
  cbn [truthy negb]. by rewrite take_ge.
Qed.

(** C10. The summarizer is idempotent: summarizing a summary returns it
    unchanged, the "No content to summarize." answer included. *)
Theorem simple_summarize_idempotent (text : list N) :
  simple_summarize (simple_summarize text) = simple_summarize text.
Proof.
  pose proof (sentences_clean text) as Hclean.
  unfold simple_summarize at 2 3.
  destruct (strip <$> filter _ _) as [|s ss] eqn:Hs.
  - vm_compute. reflexivity.
  - cbn [truthy negb]. cbv iota.
    assert (Hsel : Forall clean (take 5 (s :: ss))) by by apply Forall_take.
    assert (Hlen : (length (take 5 (s :: ss)) ≤ 5)%nat)
      by (rewrite length_take; lia).
    destruct (take 5 (s :: ss)) as [|t ts] eqn:Ht; [done|].
    by apply summary_fixed.
Qed.

(** X22. A text without a period is one fragment: unless it is blank, its
    summary is the trimmed text, newlines as spaces, with a period
    appended. *)
Lemma simple_summarize_no_period (text : list N) :
  PERIOD ∉ text →
  strip (replace NEWLINE SPACE text) ≠ [] →
  simple_summarize text = strip (replace NEWLINE SPACE text) ++ [PERIOD].
Proof.
  intros Hp Hne.
  assert (Hp' : PERIOD ∉ replace NEWLINE SPACE text).
  { clear Hne. induction text as [|c text IH]; [done|].
    apply not_elem_of_cons in Hp as [Hc Ht]. unfold replace in *.
    rewrite fmap_cons, not_elem_of_cons. split; [|by apply IH].
    by destruct (N.eqb_spec c NEWLINE). }
  unfold simple_summarize. rewrite split_no_sep by done.
  rewrite filter_cons_True by by apply truthy_true.
  rewrite filter_nil, fmap_cons, fmap_nil.
  destruct (strip _) eqn:Hs; done.
Qed.

(** The summarizer on the inputs of the specification's test list. *)
Example summarize_empty : simple_summarize [] = no_content.
Proof. reflexivity. Qed.

Example summarize_blank : simple_summarize (lit "  ") = no_content.
Proof. reflexivity. Qed.

Example summarize_abc : simple_summarize (lit "A. B. C.") = lit "A. B. C.".
Proof. vm_compute. reflexivity. Qed.

Example summarize_six :
  simple_summarize (lit "a. b. c. d. e. f. g") = lit "a. b. c. d. e.".
Proof. vm_compute. reflexivity. Qed.

Example summarize_no_period :
  simple_summarize (lit "hello world") = lit "hello world.".
Proof. vm_compute. reflexivity. Qed.

(** ** Store adapter *)

Section StoreFacts.

Implicit Types (st : Store) (name : string) (data : model).

Lemma create_document_healthy name data st :
  outage st = None →
  create_document name data st
  = (inr (hex 24 (next_id st)), stored st name data).
Proof. intros H. unfold create_document. by rewrite H. Qed.

Lemma create_document_outage name data st msg :
  outage st = Some msg →
  create_document name data st = (inl (Exception msg), called st).
Proof. intros H. unfold create_document. by rewrite H. Qed.

Lemma get_documents_outage name flt limit st msg :
  outage st = Some msg →
  get_documents name flt limit st = (inl (Exception msg), called st).
Proof. intros H. unfold get_documents. by rewrite H. Qed.

Lemma collection_stored st name data :
  collection (stored st name data) name
  = collection st name ++ [mkDoc (ObjectId (next_id st)) (model_dump data)].
Proof. unfold collection at 1, stored. simpl. by rewrite lookup_insert_eq. Qed.

Lemma collection_stored_ne st name name' data :
  name ≠ name' →
  collection (stored st name data) name' = collection st name'.
Proof.
  intros Hne. unfold collection, stored. simpl. by rewrite lookup_insert_ne.
Qed.

Lemma matches_empty d : matches ∅ d.
Proof. apply map_Forall_empty. Qed.

Lemma filter_matches_empty (docs : list Document) :
  filter (matches ∅) docs = docs.
Proof.
  induction docs as [|d docs IH]; [done|].
  rewrite filter_cons_True by apply matches_empty. by rewrite IH.
Qed.

Lemma get_documents_all name st :
  outage st = None →
  get_documents name ∅ None st = (inr (collection st name), called st).
Proof.
  intros H. unfold get_documents. by rewrite H, filter_matches_empty.
Qed.

End StoreFacts.

(** ** Validation *)

Lemma validate_Note_inr b n :
  validate_Note b = inr n ↔
  NoteIn.title b = Some (Note.title n)
  ∧ NoteIn.content b = Some (Note.content n)
  ∧ NoteIn.topic b = Note.topic n.
Proof.
  destruct b as [[t|] [c|] tp], n as [t' c' tp']; unfold validate_Note; simpl;
    split; try intros (? & ? & ?); try intros [=]; simplify_eq; done.
Qed.

Lemma validate_Flashcard_inr b c :
  validate_Flashcard b = inr c ↔
  FlashcardIn.front b = Some (Flashcard.front c)
  ∧ FlashcardIn.back b = Some (Flashcard.back c)
  ∧ FlashcardIn.tag b = Flashcard.tag c.
Proof.
  destruct b as [[f|] [k|] tg], c as [f' k' tg']; unfold validate_Flashcard;
    simpl; split; try intros (? & ? & ?); try intros [=]; simplify_eq; done.
Qed.

Lemma validate_Question_inr b q :
  validate_Question b = inr q ↔
  QuestionIn.question b = Some (Question.question q)
  ∧ QuestionIn.options b = Some (Question.options q)
  ∧ QuestionIn.answer_index b = Some (Question.answer_index q)
  ∧ QuestionIn.tag b = Question.tag q
  ∧ (2 ≤ length (Question.options q))%nat
  ∧ (0 ≤ Question.answer_index q)%Z.
Proof.
  destruct b as [qt o i tg], q as [qt' o' i' tg'].
  unfold validate_Question, required, required_min_items, required_ge. simpl.
  split.
  - destruct qt as [qt|], o as [o|], i as [i|]; simpl;
      repeat (case_match; simpl in * ); try (intros [=]); simplify_eq.
    repeat split; [apply Nat.ltb_ge; done | apply Z.ltb_ge; done].
  - intros (-> & -> & -> & -> & Hl & Hi). simpl.
    apply Nat.ltb_ge in Hl. apply Z.ltb_ge in Hi. by rewrite Hl, Hi.
Qed.

(** ** Create endpoints *)

Lemma try_except_ok body st r st' :
  body st = (inr r, st') → try_except body st = (Response200 r, st').
Proof. intros H. unfold try_except. by rewrite H. Qed.

Lemma try_except_raise body st e st' :
  body st = (inl e, st') →
  try_except body st = (HTTPException 500 (str_exn e), st').
Proof. intros H. unfold try_except. by rewrite H. Qed.

Lemma insert_body_healthy name data (k : list N → payload) st :
  outage st = None →
  (create_document name data ≫= λ inserted_id, mret (k inserted_id)) st
  = (inr (k (hex 24 (next_id st))), stored st name data).
Proof.
  intros H. unfold mbind, M_bind. by rewrite create_document_healthy.
Qed.

Lemma insert_body_outage name data (k : list N → payload) st msg :
  outage st = Some msg →
  (create_document name data ≫= λ inserted_id, mret (k inserted_id)) st
  = (inl (Exception msg), called st).
Proof.
  intros H. unfold mbind, M_bind. by rewrite (create_document_outage _ _ _ msg).
Qed.

Lemma query_body_healthy name flt limit st :
  outage st = None →
  (get_documents name flt limit
     ≫= λ docs, mret (PDocs (stringify_id <$> docs))) st
  = (inr (PDocs (stringify_id <$>
        match limit with
        | None => filter (matches flt) (collection st name)
        | Some n => take (Z.to_nat n) (filter (matches flt) (collection st name))
        end)), called st).
Proof.
  intros H. unfold mbind, M_bind, get_documents. rewrite H. by destruct limit.
Qed.

Lemma query_body_outage name flt limit st msg :
  outage st = Some msg →
  (get_documents name flt limit
     ≫= λ docs, mret (PDocs (stringify_id <$> docs))) st
  = (inl (Exception msg), called st).
Proof.
  intros H. unfold mbind, M_bind.
  by rewrite (get_documents_outage _ _ _ _ msg).
Qed.



Lemma create_question_healthy q st :
  outage st = None →
  create_question q st
  = (Response200 (PId (hex 24 (next_id st))),
     stored st "question" (MQuestion q)).
Proof.
  intros H. apply try_except_ok. by apply (insert_body_healthy _ _ PId).
Qed.

(** A create handler answers 200 only after the store took the document. *)
Lemma insert_200 name data (k : list N → payload) st r st' :
  try_except (create_document name data ≫= λ i, mret (k i)) st
  = (Response200 r, st') →
  st' = stored st name data.
Proof.
  unfold try_except, mbind, M_bind, create_document.
  destruct (outage st); simpl; intros [=]; done.
Qed.

(** C2 (as the code has it). Validation accepts a Note exactly when title
    and content are present, and a Flashcard exactly when front and back
    are present, whatever their text, the empty string included; a Note or
    Flashcard the create endpoint persisted holds the request's required
    fields as text. *)
Theorem required_text_present :
  (∀ b, (∃ n, validate_Note b = inr n)
        ↔ is_Some (NoteIn.title b) ∧ is_Some (NoteIn.content b))
  ∧ (∀ b, (∃ c, validate_Flashcard b = inr c)
          ↔ is_Some (FlashcardIn.front b) ∧ is_Some (FlashcardIn.back b))
  ∧ (∀ b st r st',
       post_notes b st = (Response200 r, st') →
       ∃ t c, NoteIn.title b = Some t ∧ NoteIn.content b = Some c
              ∧ st' = stored st "note" (MNote (Note.mk t c (NoteIn.topic b))))
  ∧ (∀ b st r st',
       post_flashcards b st = (Response200 r, st') →
       ∃ f k, FlashcardIn.front b = Some f ∧ FlashcardIn.back b = Some k
              ∧ st' = stored st "flashcard"
                        (MFlashcard (Flashcard.mk f k (FlashcardIn.tag b)))).
Proof.
  split_and!.
  - intros b. split.
    + intros [n Hn]. apply validate_Note_inr in Hn as (-> & -> & _). eauto.
    + intros [[t Ht] [c Hc]]. exists (Note.mk t c (NoteIn.topic b)).
      by apply validate_Note_inr.
  - intros b. split.
    + intros [c Hc]. apply validate_Flashcard_inr in Hc as (-> & -> & _). eauto.
    + intros [[f Hf] [k Hk]]. exists (Flashcard.mk f k (FlashcardIn.tag b)).
      by apply validate_Flashcard_inr.
  - intros b st r st'. unfold post_notes, validated.
    destruct (validate_Note b) as [errs|n] eqn:Hv; [intros [=]|].
    apply validate_Note_inr in Hv as (Ht & Hc & Htp). intros Hr.
    apply (insert_200 _ _ PId) in Hr. exists (Note.title n), (Note.content n).
    rewrite Htp. by destruct n.
  - intros b st r st'. unfold post_flashcards, validated.
    destruct (validate_Flashcard b) as [errs|c] eqn:Hv; [intros [=]|].
    apply validate_Flashcard_inr in Hv as (Hf & Hk & Htg). intros Hr.
    apply (insert_200 _ _ PId) in Hr.
    exists (Flashcard.front c), (Flashcard.back c).
    rewrite Htg. by destruct c.
Qed.

Lemma required_text_present_witness :
  ∃ t c,
    NoteIn.title (NoteIn.mk (Some (lit "t")) (Some []) None) = Some t
    ∧ NoteIn.content (NoteIn.mk (Some (lit "t")) (Some []) None) = Some c
    ∧ stored empty_store "note" (MNote (Note.mk (lit "t") [] None))
      = stored empty_store "note"
          (MNote (Note.mk t c
                    (NoteIn.topic (NoteIn.mk (Some (lit "t")) (Some []) None)))).
Proof.
  destruct required_text_present as (_ & _ & Hnote & _).
  apply (Hnote (NoteIn.mk (Some (lit "t")) (Some []) None) empty_store
           (PId (hex 24 0))).
  reflexivity.
Defined.

(** C2 (counterexample). A Note whose title and content are empty strings
    and a Flashcard whose front and back are empty strings pass validation
    and are persisted with the empty texts. *)
Lemma empty_text_persisted :
  validate_Note (NoteIn.mk (Some []) (Some []) None)
    = inr (Note.mk [] [] None)
  ∧ post_notes (NoteIn.mk (Some []) (Some []) None) empty_store
    = (Response200 (PId (hex 24 0)),
       stored empty_store "note" (MNote (Note.mk [] [] None)))
  ∧ (∃ d, collection (stored empty_store "note" (MNote (Note.mk [] [] None)))
            "note" = [d]
          ∧ fields d !! "title" = Some (VStr [])
          ∧ fields d !! "content" = Some (VStr []))
  ∧ validate_Flashcard (FlashcardIn.mk (Some []) (Some []) None)
    = inr (Flashcard.mk [] [] None)
  ∧ post_flashcards (FlashcardIn.mk (Some []) (Some []) None) empty_store
    = (Response200 (PId (hex 24 0)),
       stored empty_store "flashcard" (MFlashcard (Flashcard.mk [] [] None)))
  ∧ (∃ d, collection
            (stored empty_store "flashcard"
               (MFlashcard (Flashcard.mk [] [] None))) "flashcard" = [d]
          ∧ fields d !! "front" = Some (VStr [])
          ∧ fields d !! "back" = Some (VStr [])).
Proof.
  split_and!; try reflexivity.
  - eexists. split_and!; [by rewrite collection_stored|reflexivity..].
  - eexists. split_and!; [by rewrite collection_stored|reflexivity..].
Qed.

(** C3. A Question request whose options hold fewer than two entries, or
    whose answer_index is negative, fails validation: the endpoint answers
    with the validation errors and the store is left exactly as it was, no
    adapter call made. *)
Theorem question_rejected (b : QuestionIn.t) (st : Store) :
  (∃ o, QuestionIn.options b = Some o ∧ (length o < 2)%nat)
  ∨ (∃ i, QuestionIn.answer_index b = Some i ∧ (i < 0)%Z) →
  ∃ errors,
    errors ≠ []
    ∧ validate_Question b = inl errors
    ∧ post_questions b st = (RequestValidationError errors, st).
Proof.
  intros Hbad. unfold post_questions, validated.
  destruct (validate_Question b) as [errors|q] eqn:Hv.
  - exists errors. split_and!; [|done..].
    intros ->. revert Hv. unfold validate_Question.
    destruct (_ ++ _) eqn:He; [|by intros [=]].
    destruct Hbad as [(o & Ho & Hlen)|(i & Hi & Hneg)].
    + rewrite Ho in He. unfold required_min_items in He.
      apply Nat.ltb_lt in Hlen. rewrite Hlen in He.
      by destruct (required _ _).
    + rewrite Hi in He. unfold required_ge in He.
      apply Z.ltb_lt in Hneg. rewrite Hneg in He.
      destruct (required _ _); [|done]. by destruct (required_min_items _ _ _).
  - apply validate_Question_inr in Hv as (_ & Ho & Hi & _ & Hlen & Hpos).
    destruct Hbad as [(o & Ho' & Hlen')|(i & Hi' & Hneg)]; simplify_eq; lia.
Qed.

Lemma question_rejected_witness :
  ∃ errors,
    errors ≠ []
    ∧ validate_Question
        (QuestionIn.mk (Some (lit "2+2?")) (Some [lit "4"]) (Some (-1)%Z) None)
      = inl errors
    ∧ post_questions
        (QuestionIn.mk (Some (lit "2+2?")) (Some [lit "4"]) (Some (-1)%Z) None)
        empty_store
      = (RequestValidationError errors, empty_store).
Proof.
  apply (question_rejected
           (QuestionIn.mk (Some (lit "2+2?")) (Some [lit "4"]) (Some (-1)%Z) None)
           empty_store).
  left. exists [lit "4"]. split; [reflexivity | simpl; lia].
Defined.

(** C7. Question validation looks at each field on its own: with a question
    text, at least two options and a non-negative answer_index the request
    is valid and the create handler runs on it, whether or not answer_index
    is below the number of options; on an available store the question is
    stored and answered with its identifier. *)
Theorem question_index_unchecked (qt : list N) (o : list (list N)) (i : Z)
    (tg : option (list N)) (st : Store) :
  (2 ≤ length o)%nat → (0 ≤ i)%Z →
  validate_Question (QuestionIn.mk (Some qt) (Some o) (Some i) tg)
    = inr (Question.mk qt o i tg)
  ∧ post_questions (QuestionIn.mk (Some qt) (Some o) (Some i) tg) st
    = create_question (Question.mk qt o i tg) st
  ∧ (outage st = None →
     post_questions (QuestionIn.mk (Some qt) (Some o) (Some i) tg) st
     = (Response200 (PId (hex 24 (next_id st))),
        stored st "question" (MQuestion (Question.mk qt o i tg)))).
Proof.
  intros Hlen Hpos.
  assert (Hv : validate_Question (QuestionIn.mk (Some qt) (Some o) (Some i) tg)
               = inr (Question.mk qt o i tg))
    by by apply validate_Question_inr.
  split_and!; [done| |].
  - unfold post_questions, validated. by rewrite Hv.
  - intros H. unfold post_questions, validated. rewrite Hv.
    by apply create_question_healthy.
Qed.

Lemma question_index_unchecked_witness :
  (length [lit "yes"; lit "no"] ≤ Z.to_nat 7)%nat
  ∧ validate_Question
      (QuestionIn.mk (Some (lit "ok?")) (Some [lit "yes"; lit "no"]) (Some 7%Z) None)
    = inr (Question.mk (lit "ok?") [lit "yes"; lit "no"] 7 None)
  ∧ post_questions
      (QuestionIn.mk (Some (lit "ok?")) (Some [lit "yes"; lit "no"]) (Some 7%Z) None)
      empty_store
    = (Response200 (PId (hex 24 0)),
       stored empty_store "question"
         (MQuestion (Question.mk (lit "ok?") [lit "yes"; lit "no"] 7 None))).
Proof.
  destruct (question_index_unchecked (lit "ok?") [lit "yes"; lit "no"] 7 None
              empty_store) as (Hv & _ & Hst); [simpl; lia | lia |].
  split; [simpl; lia|]. split; [exact Hv | by apply Hst].
Defined.

(** ** List endpoints *)

Lemma filter_if_empty name : filter_if name (Some []) = filter_if name None.
Proof. done. Qed.

Lemma list_all_healthy name st :
  outage st = None →
  try_except (get_documents name ∅ None
                ≫= λ docs, mret (PDocs (stringify_id <$> docs))) st
  = (Response200 (PDocs (stringify_id <$> collection st name)), called st).
Proof.
  intros H. apply try_except_ok.
  by rewrite query_body_healthy, filter_matches_empty.
Qed.

(** C9. An empty-string filter parameter is falsy, so the list handlers
    build the empty filter for it, as they do when the parameter is not
    supplied: the request is answered exactly like the unfiltered one, and
    on an available store that answer holds every document of the
    collection, whatever its topic or tag. *)
Theorem empty_filter_lists_all (st : Store) :
  filter_if "topic" (Some []) = ∅
  ∧ filter_if "tag" (Some []) = ∅
  ∧ list_notes (Some []) st = list_notes None st
  ∧ list_flashcards (Some []) st = list_flashcards None st
  ∧ list_questions (Some []) st = list_questions None st
  ∧ (outage st = None →
     fst (list_notes (Some []) st)
       = Response200 (PDocs (stringify_id <$> collection st "note"))
     ∧ fst (list_flashcards (Some []) st)
       = Response200 (PDocs (stringify_id <$> collection st "flashcard"))
     ∧ fst (list_questions (Some []) st)
       = Response200 (PDocs (stringify_id <$> collection st "question"))).
Proof.
  split_and!; try reflexivity.
  intros H.
  unfold list_notes, list_flashcards, list_questions,
    list_notes_body, list_flashcards_body, list_questions_body.
  cbn [filter_if truthy]. by rewrite !list_all_healthy.
Qed.

Lemma empty_filter_lists_all_witness :
  fst (list_notes (Some [])
         (stored empty_store "note"
            (MNote (Note.mk (lit "t") (lit "c") (Some (lit "math"))))))
  = Response200 (PDocs (stringify_id <$>
      collection (stored empty_store "note"
         (MNote (Note.mk (lit "t") (lit "c") (Some (lit "math"))))) "note")).
Proof.
  apply (empty_filter_lists_all
           (stored empty_store "note"
              (MNote (Note.mk (lit "t") (lit "c") (Some (lit "math")))))).
  reflexivity.
Defined.

(** ** Failures *)

Section Handlers.

Variable decode : list byte → list N.

Lemma summarize_file_healthy file st :
  outage st = None →
  summarize_file decode file st
  = (Response200 (PSummary (hex 24 (next_id st))
                    (simple_summarize (upload_text decode file))),
     stored st "summary"
       (MSummary (Summary.mk (filename file)
                    (slice_to 10000 (upload_text decode file))
                    (simple_summarize (upload_text decode file))))).
Proof.
  intros H. apply try_except_ok. unfold summarize_file_body.
  by apply (insert_body_healthy _ _ (λ i, PSummary i _)).
Qed.

(** A handler body fails only when the store does, with the store's error,
    after its one adapter call. *)
Lemma handler_body_raise op st e st' :
  handler_body decode op st = (inl e, st') →
  ∃ msg, outage st = Some msg ∧ e = Exception msg ∧ st' = called st.
Proof.
  destruct (outage st) as [msg|] eqn:Ho.
  - intros Hb. exists msg. split; [done|].
    destruct op; simpl in Hb;
      unfold create_note_body, list_notes_body, create_flashcard_body,
        list_flashcards_body, create_question_body, list_questions_body,
        summarize_file_body, list_summaries_body in Hb; cbv zeta in Hb;
      first [ rewrite (insert_body_outage _ _ _ _ msg) in Hb by done
            | rewrite (query_body_outage _ _ _ _ msg) in Hb by done ];
      by simplify_eq.
  - intros Hb.
    destruct op; simpl in Hb;
      unfold create_note_body, list_notes_body, create_flashcard_body,
        list_flashcards_body, create_question_body, list_questions_body,
        summarize_file_body, list_summaries_body in Hb; cbv zeta in Hb;
      first [ rewrite insert_body_healthy in Hb by done
            | rewrite query_body_healthy in Hb by done ];
      by simplify_eq.
Qed.

Lemma handler_try_except op :
  handler decode op = try_except (handler_body decode op).
Proof. by destruct op. Qed.

End Handlers.

(** C6. Whatever the operation, a failure raised in its handler body is
    caught at the endpoint: the response is an HTTP 500 whose detail is the
    text of the failure.  The handler made its one adapter call and no
    second attempt, the collections are as before, and a response is
    produced all the same. *)
Theorem failure_is_server_error (decode : list byte → list N)
    (op : operation) (st st' : Store) (e : exn) :
  handler_body decode op st = (inl e, st') →
  handler decode op st = (HTTPException 500 (str_exn e), st')
  ∧ collections st' = collections st
  ∧ calls st' = S (calls st).
Proof.
  intros Hb. split.
  - rewrite handler_try_except. by apply try_except_raise.
  - by apply handler_body_raise in Hb as (msg & _ & _ & ->).
Qed.

Lemma failure_is_server_error_witness :
  handler decode_ignore (CreateNote (Note.mk (lit "t") (lit "c") None))
    (mkStore (Some (lit "store unavailable")) 0 ∅ 0)
  = (HTTPException 500 (lit "store unavailable"),
     mkStore (Some (lit "store unavailable")) 0 ∅ 1).
Proof.
  apply (failure_is_server_error decode_ignore
           (CreateNote (Note.mk (lit "t") (lit "c") None))
           (mkStore (Some (lit "store unavailable")) 0 ∅ 0)
           (mkStore (Some (lit "store unavailable")) 0 ∅ 1)
           (Exception (lit "store unavailable"))).
  reflexivity.
Defined.

(** ** Upload and summarize *)

Lemma lstrip_blank (s : list N) :
  Forall (λ c, isspace c = true) s → lstrip s = [].
Proof. induction 1 as [|c s Hc _ IH]; [done|]. simpl. by rewrite Hc. Qed.

Lemma strip_blank (s : list N) :
  Forall (λ c, isspace c = true) s → strip s = [].
Proof. intros H. unfold strip. by rewrite lstrip_blank. Qed.

Lemma summary_fields (s : Summary.t) :
  model_dump (MSummary s) !! "file_name" = Some (VStr (Summary.file_name s))
  ∧ model_dump (MSummary s) !! "text" = Some (VStr (Summary.text s))
  ∧ model_dump (MSummary s) !! "summary" = Some (VStr (Summary.summary s)).
Proof. done. Qed.

Lemma upload_text_blank decode file :
  Forall (λ c, isspace c = true) (decode (file_bytes file)) →
  upload_text decode file = placeholder.
Proof.
  intros H. unfold upload_text. rewrite strip_blank by done.
  by rewrite orb_true_r.
Qed.

(** C4. When the decoded upload is empty or holds only whitespace, the
    handler works on the placeholder instead: the record it hands to the
    store has the placeholder as text and the placeholder's summary as
    summary, and on an available store that record is persisted and the
    response carries its identifier and summary. *)
Theorem blank_upload_placeholder (decode : list byte → list N)
    (file : UploadFile) (st : Store) :
  Forall (λ c, isspace c = true) (decode (file_bytes file)) →
  upload_text decode file = placeholder
  ∧ summarize_file_body decode file
    = (create_document "summary"
         (MSummary (Summary.mk (filename file) placeholder
                      (simple_summarize placeholder)))
       ≫= λ inserted_id,
           mret (PSummary inserted_id (simple_summarize placeholder)))
  ∧ (outage st = None →
     summarize_file decode file st
     = (Response200 (PSummary (hex 24 (next_id st))
                       (simple_summarize placeholder)),
        stored st "summary"
          (MSummary (Summary.mk (filename file) placeholder
                       (simple_summarize placeholder))))).
Proof.
  intros Hblank. pose proof (upload_text_blank decode file Hblank) as Htext.
  assert (Hcut : slice_to 10000 placeholder = placeholder)
    by (vm_compute; reflexivity).
  split_and!; [done| |].
  - unfold summarize_file_body. by rewrite Htext, Hcut.
  - intros H. by rewrite summarize_file_healthy, Htext, Hcut.
Qed.

Lemma blank_upload_placeholder_witness :
  summarize_file decode_ignore
    (mkUpload (lit "scan.pdf") [xff; xfe; x20; x0a]) empty_store
  = (Response200 (PSummary (hex 24 0) (simple_summarize placeholder)),
     stored empty_store "summary"
       (MSummary (Summary.mk (lit "scan.pdf") placeholder
                    (simple_summarize placeholder)))).
Proof.
  apply (blank_upload_placeholder decode_ignore
           (mkUpload (lit "scan.pdf") [xff; xfe; x20; x0a]) empty_store).
  - vm_compute. repeat constructor.
  - reflexivity.
Defined.

(** C5. On an available store every upload adds one Summary document whose
    text field is the first 10,000 code points of the text the handler
    worked on (the decoded upload or the placeholder): a prefix of it, as
    long as the text allows and never longer than 10,000. *)
Theorem stored_text_truncated (decode : list byte → list N)
    (file : UploadFile) (st : Store) :
  outage st = None →
  ∃ d,
    collection (snd (summarize_file decode file st)) "summary"
      = collection st "summary" ++ [d]
    ∧ fields d !! "text"
      = Some (VStr (take (N.to_nat 10000) (upload_text decode file)))
    ∧ take (N.to_nat 10000) (upload_text decode file)
        `prefix_of` upload_text decode file
    ∧ length (take (N.to_nat 10000) (upload_text decode file))
      = (length (upload_text decode file) `min` N.to_nat 10000)%nat.
Proof.
  intros H. rewrite summarize_file_healthy by done.
  eexists. split_and!.
  - apply collection_stored.
  - apply summary_fields.
  - apply prefix_take.
  - rewrite length_take. lia.
Qed.

Lemma stored_text_truncated_witness :
  ∃ d,
    collection
      (snd (summarize_file decode_ignore
              (mkUpload (lit "a.txt") [x48; x69; x2e]) empty_store)) "summary"
      = collection empty_store "summary" ++ [d]
    ∧ fields d !! "text"
      = Some (VStr (take (N.to_nat 10000)
                      (upload_text decode_ignore
                         (mkUpload (lit "a.txt") [x48; x69; x2e]))))
    ∧ take (N.to_nat 10000)
        (upload_text decode_ignore (mkUpload (lit "a.txt") [x48; x69; x2e]))
        `prefix_of`
        upload_text decode_ignore (mkUpload (lit "a.txt") [x48; x69; x2e])
    ∧ length (take (N.to_nat 10000)
                (upload_text decode_ignore
                   (mkUpload (lit "a.txt") [x48; x69; x2e])))
      = (length (upload_text decode_ignore
                   (mkUpload (lit "a.txt") [x48; x69; x2e]))
         `min` N.to_nat 10000)%nat.
Proof.
  apply (stored_text_truncated decode_ignore
           (mkUpload (lit "a.txt") [x48; x69; x2e]) empty_store).
  reflexivity.
Defined.

Lemma long_upload_facts :
  (N.to_nat 10000 < length (decode_ignore (file_bytes long_upload)))%nat
  ∧ 98 ∈ simple_summarize (upload_text decode_ignore long_upload)
  ∧ 98 ∉ slice_to 10000 (upload_text decode_ignore long_upload).
Proof.
  split_and!.
  - apply Nat.ltb_lt. vm_compute. reflexivity.
  - apply (bool_decide_unpack _). vm_compute. exact I.
  - apply (bool_decide_unpack _). vm_compute. exact I.
Qed.

(** C8. The summary is computed from the whole text the handler worked on,
    before the stored text is cut to 10,000 code points: the stored summary
    field is the summarizer's answer on the untruncated text, and there is
    an upload longer than 10,000 code points whose stored summary holds a
    character that its stored text does not. *)
Theorem summary_from_full_text :
  (∀ (decode : list byte → list N) file st,
     outage st = None →
     ∃ d,
       collection (snd (summarize_file decode file st)) "summary"
         = collection st "summary" ++ [d]
       ∧ fields d !! "summary"
         = Some (VStr (simple_summarize (upload_text decode file)))
       ∧ fields d !! "text"
         = Some (VStr (slice_to 10000 (upload_text decode file))))
  ∧ (∃ file c,
       (N.to_nat 10000 < length (decode_ignore (file_bytes file)))%nat
       ∧ c ∈ simple_summarize (upload_text decode_ignore file)
       ∧ c ∉ slice_to 10000 (upload_text decode_ignore file)).
Proof.
  split.
  - intros decode file st H. rewrite summarize_file_healthy by done.
    eexists. split_and!; [apply collection_stored | apply summary_fields..].
  - exists long_upload, 98. apply long_upload_facts.
Qed.

Lemma summary_from_full_text_witness :
  ∃ d,
    collection (snd (summarize_file decode_ignore long_upload empty_store))
      "summary" = collection empty_store "summary" ++ [d]
    ∧ fields d !! "summary"
      = Some (VStr (simple_summarize (upload_text decode_ignore long_upload)))
    ∧ fields d !! "text"
      = Some (VStr (slice_to 10000 (upload_text decode_ignore long_upload))).
Proof.
  apply (proj1 summary_from_full_text decode_ignore long_upload empty_store).
  reflexivity.
Defined.

(** ** More on the summarizer *)

Section SummarizerFacts.

Implicit Types (s f text : list N) (c : N) (fs ss : list (list N)).

(** The summary is a function of the first five sentences. *)
Lemma simple_summarize_selected text :
  simple_summarize text
  = match take 5 (sentences text) with
    | [] => no_content
    | selected => join [PERIOD; SPACE] selected ++ [PERIOD]
    end.
Proof.
  unfold simple_summarize. fold (sentences text).
  by destruct (sentences text).
Qed.

Lemma sentences_all_clean text : Forall clean (sentences text).
Proof. apply sentences_clean. Qed.

Lemma split_nonempty sep s : split sep s ≠ [].
Proof.
  induction s as [|c s IH]; [done|]. simpl.
  destruct (c =? sep); [done|]. by destruct (split sep s).
Qed.

Lemma split_app sep s t :
  split sep (s ++ sep :: t) = split sep s ++ split sep t.
Proof.
  induction s as [|c s IH]; simpl.
  - by rewrite N.eqb_refl.
  - destruct (c =? sep); [by rewrite IH|]. rewrite IH.
    pose proof (split_nonempty sep s). by destruct (split sep s).
Qed.

Lemma replace_app old new s t :
  replace old new (s ++ t) = replace old new s ++ replace old new t.
Proof. apply fmap_app. Qed.

Lemma replace_idemp old new s :
  old ≠ new → replace old new (replace old new s) = replace old new s.
Proof. intros Hne. apply replace_id. by apply replace_fresh. Qed.

Lemma sentences_app text extra :
  sentences (text ++ PERIOD :: extra) = sentences text ++ sentences extra.
Proof.
  unfold sentences. rewrite replace_app.
  change (replace NEWLINE SPACE (PERIOD :: extra))
    with (PERIOD :: replace NEWLINE SPACE extra).
  by rewrite split_app, filter_app, fmap_app.
Qed.

Lemma count_app c s t : count c (s ++ t) = (count c s + count c t)%nat.
Proof. unfold count. by rewrite filter_app, length_app. Qed.

Lemma count_absent c s : c ∉ s → count c s = 0%nat.
Proof.
  unfold count. induction s as [|d s IH]; [done|].
  rewrite not_elem_of_cons. intros [Hd Hs].
  rewrite filter_cons_False by congruence. by apply IH.
Qed.

Lemma count_cons_eq c s : count c (c :: s) = S (count c s).
Proof. unfold count. by rewrite filter_cons_True. Qed.

Lemma count_cons_ne c d s : d ≠ c → count c (d :: s) = count c s.
Proof. intros H. unfold count. by rewrite filter_cons_False. Qed.

Lemma count_join ss :
  Forall clean ss → ss ≠ [] →
  count PERIOD (join [PERIOD; SPACE] ss ++ [PERIOD]) = length ss.
Proof.
  induction 1 as [|s ss (_ & _ & Hp & _) Hss IH]; [done|]. intros _.
  destruct ss as [|t ss].
  - simpl. by rewrite count_app, count_absent, count_cons_eq.
  - rewrite join_cons_cons, <- !app_assoc, count_app, count_absent by done.
    cbn [app]. rewrite count_cons_eq, count_cons_ne by done.
    by rewrite IH.
Qed.

Lemma lstrip_app_blank w s :
  Forall (λ c, isspace c = true) w → lstrip (w ++ s) = lstrip s.
Proof. induction 1 as [|c w Hc _ IH]; [done|]. simpl. by rewrite Hc. Qed.

Lemma strip_app_blank_l w s :
  Forall (λ c, isspace c = true) w → strip (w ++ s) = strip s.
Proof. intros H. unfold strip. by rewrite lstrip_app_blank. Qed.

Lemma rstrip_app_blank s w :
  Forall (λ c, isspace c = true) w → rstrip (s ++ w) = rstrip s.
Proof.
  intros H. unfold rstrip. rewrite reverse_app, lstrip_app_blank; [done|].
  by apply Forall_reverse.
Qed.

Lemma lstrip_cases s :
  Forall (λ c, isspace c = true) s
  ∨ ∃ w c t, s = w ++ c :: t ∧ Forall (λ c, isspace c = true) w
             ∧ isspace c = false ∧ lstrip s = c :: t.
Proof.
  induction s as [|d s IH]; [by left|].
  destruct (isspace d) eqn:Hd.
  - destruct IH as [Hall|(w & c & t & -> & Hw & Hc & Hl)].
    + left. by constructor.
    + right. exists (d :: w), c, t. split_and!; [done|by constructor|done|].
      simpl. by rewrite Hd.
  - right. exists [], d, s. split_and!; [done|constructor|done|].
    simpl. by rewrite Hd.
Qed.

Lemma strip_app_blank_r s w :
  Forall (λ c, isspace c = true) w → strip (s ++ w) = strip s.
Proof.
  intros Hw. unfold strip.
  destruct (lstrip_cases s) as [Hall|(w' & c & t & -> & Hw' & Hc & Hl)].
  - rewrite (lstrip_blank s) by done.
    rewrite lstrip_blank; [done|]. by apply Forall_app.
  - rewrite Hl, <- app_assoc, lstrip_app_blank by done.
    rewrite <- app_comm_cons. cbn [lstrip]. rewrite Hc.
    by rewrite app_comm_cons, rstrip_app_blank.
Qed.

Lemma replace_blank s :
  Forall (λ c, isspace c = true) s →
  Forall (λ c, isspace c = true) (replace NEWLINE SPACE s).
Proof.
  induction 1 as [|c s Hc _ IH]; [constructor|]. unfold replace in *.
  rewrite fmap_cons. constructor; [|done].
  by destruct (N.eqb_spec c NEWLINE).
Qed.

Lemma blank_no_period s :
  Forall (λ c, isspace c = true) s → PERIOD ∉ s.
Proof.
  intros H Hin. rewrite Forall_forall in H. by apply H in Hin.
Qed.

Lemma split_app_l sep w s :
  sep ∉ w →
  split sep (w ++ s)
  = match split sep s with
    | [] => []
    | f :: fs => (w ++ f) :: fs
    end.
Proof.
  pose proof (split_nonempty sep s) as Hne.
  induction w as [|c w IH]; simpl.
  - intros _. by destruct (split sep s).
  - rewrite not_elem_of_cons. intros [Hc Hw].
    destruct (N.eqb_spec c sep); [congruence|]. rewrite IH by done.
    by destruct (split sep s).
Qed.

Lemma split_app_r sep s w :
  sep ∉ w →
  ∃ fs f, split sep s = fs ++ [f] ∧ split sep (s ++ w) = fs ++ [f ++ w].
Proof.
  intros Hw. induction s as [|c s (fs & f & Hs & Hsw)]; simpl.
  - exists [], []. by rewrite split_no_sep.
  - rewrite Hs, Hsw. destruct (c =? sep).
    + by exists ([] :: fs), f.
    + destruct fs as [|g fs]; simpl.
      * by exists [], (c :: f).
      * by exists ((c :: g) :: fs), f.
Qed.

Lemma sentences_blank_l w text :
  Forall (λ c, isspace c = true) w → sentences (w ++ text) = sentences text.
Proof.
  intros Hw. apply replace_blank in Hw as Hw'.
  unfold sentences. rewrite replace_app.
  rewrite split_app_l by by apply blank_no_period.
  pose proof (split_nonempty PERIOD (replace NEWLINE SPACE text)) as Hne.
  destruct (split PERIOD (replace NEWLINE SPACE text)) as [|f fs]; [done|].
  rewrite !filter_cons, strip_app_blank_l by done.
  destruct (decide _); by rewrite ?fmap_cons, ?strip_app_blank_l.
Qed.

Lemma sentences_blank_r text w :
  Forall (λ c, isspace c = true) w → sentences (text ++ w) = sentences text.
Proof.
  intros Hw. apply replace_blank in Hw as Hw'.
  unfold sentences. rewrite replace_app.
  destruct (split_app_r PERIOD (replace NEWLINE SPACE text)
              (replace NEWLINE SPACE w)) as (fs & f & -> & ->);
    [by apply blank_no_period|].
  rewrite !filter_app, !fmap_app, !filter_cons, !filter_nil.
  rewrite strip_app_blank_r by done.
  destruct (decide _); by rewrite ?fmap_cons, ?strip_app_blank_r.
Qed.

End SummarizerFacts.

Section SummarizerFacts2.

Implicit Types (s f text : list N) (c : N) (fs ss : list (list N)).

Lemma split_head_prefix sep s g gs :
  split sep s = g :: gs → ∃ post, s = g ++ post.
Proof.
  revert g gs. induction s as [|c s IH]; intros g gs; simpl.
  - intros [= <- _]. by exists [].
  - destruct (c =? sep).
    + intros [= <- _]. by exists (c :: s).
    + destruct (split sep s) as [|h hs] eqn:Hs; intros [= <- _].
      * by exists s.
      * destruct (IH h hs eq_refl) as [post ->]. by exists post.
Qed.

Lemma split_infix sep s f :
  f ∈ split sep s → ∃ pre post, s = pre ++ f ++ post.
Proof.
  revert f. induction s as [|c s IH]; intros f; simpl.
  - intros ->%list_elem_of_singleton. by exists [], [].
  - destruct (c =? sep).
    + intros [->|Hf]%elem_of_cons; [by exists [], (c :: s)|].
      destruct (IH f Hf) as (pre & post & ->). by exists (c :: pre), post.
    + destruct (split sep s) as [|g gs] eqn:Hs.
      * intros ->%list_elem_of_singleton. by exists [], s.
      * intros [->|Hf]%elem_of_cons.
        -- destruct (split_head_prefix sep s g gs Hs) as [post ->].
           by exists [], post.
        -- destruct (IH f) as (pre & post & ->); [by right|].
           by exists (c :: pre), post.
Qed.

Lemma lstrip_suffix s : ∃ pre, s = pre ++ lstrip s.
Proof.
  induction s as [|c s [pre IH]]; [by exists []|]. simpl.
  destruct (isspace c); [|by exists []].
  exists (c :: pre). by rewrite <- app_comm_cons, <- IH.
Qed.

Lemma rstrip_prefix s : ∃ post, s = rstrip s ++ post.
Proof.
  unfold rstrip. destruct (lstrip_suffix (reverse s)) as [pre Hpre].
  exists (reverse pre).
  by rewrite <- reverse_app, <- Hpre, reverse_involutive.
Qed.

Lemma strip_infix s : ∃ pre post, s = pre ++ strip s ++ post.
Proof.
  unfold strip. destruct (lstrip_suffix s) as [pre Hpre].
  destruct (rstrip_prefix (lstrip s)) as [post Hpost].
  exists pre, post. by rewrite <- Hpost.
Qed.

Lemma filter_none {A} (P : A → Prop) `{!∀ x, Decision (P x)} (l : list A) :
  Forall (λ x, ¬ P x) l → filter P l = [].
Proof.
  induction 1 as [|x l Hx _ IH]; [done|]. by rewrite filter_cons_False.
Qed.

Lemma replace_Forall (P : N → Prop) s :
  P SPACE → Forall P s → Forall P (replace NEWLINE SPACE s).
Proof.
  intros Hsp. induction 1 as [|c s Hc _ IH]; [constructor|].
  unfold replace in *. rewrite fmap_cons. constructor; [|done].
  by destruct (c =? NEWLINE).
Qed.

Lemma sentences_none text :
  Forall (λ c, isspace c = true ∨ c = PERIOD) text → sentences text = [].
Proof.
  intros Hall. unfold sentences.
  rewrite filter_none; [done|].
  apply (replace_Forall _ text) in Hall; [|by left].
  pose proof (split_fragments PERIOD (replace NEWLINE SPACE text)) as Hfr.
  eapply Forall_impl; [exact Hfr|]. intros f [Hp Hsub]. simpl.
  rewrite strip_blank; [done|].
  apply Forall_forall. intros c Hc.
  rewrite Forall_forall in Hall.
  destruct (Hall c (Hsub c Hc)) as [Hw| ->]; [done|]. by destruct Hp.
Qed.

End SummarizerFacts2.

(** X1. Every summary is non-empty, ends with a period and holds no newline,
    whatever the input. *)
Theorem summary_shape (text : list N) :
  simple_summarize text ≠ []
  ∧ last (simple_summarize text) = Some PERIOD
  ∧ NEWLINE ∉ simple_summarize text.
Proof.
  rewrite simple_summarize_selected.
  assert (Hclean : Forall clean (take 5 (sentences text)))
    by apply Forall_take, sentences_all_clean.
  destruct (take 5 (sentences text)) as [|s ss].
  - split_and!; [done|done|]. apply (bool_decide_unpack _). by vm_compute.
  - split_and!.
    + intros Hnil. by apply app_nil in Hnil as [_ [=]].
    + apply last_snoc.
    + rewrite not_elem_of_app. split.
      * apply join_not_elem.
        -- apply (bool_decide_unpack _). by vm_compute.
        -- eapply Forall_impl; [exact Hclean|]. by intros t (_ & _ & _ & Ht).
      * apply (bool_decide_unpack _). by vm_compute.
Qed.

(** X2. A summary holds one period per selected sentence: as many as the
    text has sentences, at most five, and one when there is no sentence. *)
Theorem summary_period_count (text : list N) :
  count PERIOD (simple_summarize text)
  = (1 `max` (length (sentences text) `min` 5))%nat.
Proof.
  rewrite simple_summarize_selected.
  assert (Hclean : Forall clean (take 5 (sentences text)))
    by apply Forall_take, sentences_all_clean.
  assert (Hlen : length (take 5 (sentences text))
                 = (length (sentences text) `min` 5)%nat)
    by (rewrite length_take; lia).
  rewrite <- Hlen.
  destruct (take 5 (sentences text)) as [|s ss]; [by vm_compute|].
  rewrite count_join by done. cbn [length]. lia.
Qed.

(** X3. A text made of whitespace and periods only, the empty text included,
    has no sentence: its summary is "No content to summarize.". *)
Theorem blank_text_no_content (text : list N) :
  Forall (λ c, isspace c = true ∨ c = PERIOD) text →
  simple_summarize text = no_content.
Proof.
  intros H. by rewrite simple_summarize_selected, sentences_none.
Qed.

Lemma blank_text_no_content_witness :
  simple_summarize (lit " .. . ") = no_content.
Proof.
  apply (blank_text_no_content (lit " .. . ")).
  unfold lit. simpl.
  repeat (constructor; [first [by left | by right]|]). constructor.
Defined.

(** X4. The sentences of two texts put together with a period between them
    are the sentences of the first followed by those of the second. *)
Theorem sentences_joined (text extra : list N) :
  sentences (text ++ PERIOD :: extra) = sentences text ++ sentences extra.
Proof. apply sentences_app. Qed.

(** X5. Only the first five sentences count: once a text has five
    sentences, whatever follows it after a period leaves the summary
    unchanged. *)
Theorem first_five_decide (text extra : list N) :
  (5 ≤ length (sentences text))%nat →
  simple_summarize (text ++ PERIOD :: extra) = simple_summarize text.
Proof.
  intros Hlen.
  by rewrite !simple_summarize_selected, sentences_app, take_app_le.
Qed.

Lemma first_five_decide_witness :
  simple_summarize (lit "a. b. c. d. e" ++ PERIOD :: lit " f. g")
  = simple_summarize (lit "a. b. c. d. e").
Proof.
  apply (first_five_decide (lit "a. b. c. d. e") (lit " f. g")).
  vm_compute. lia.
Defined.

(** X6. Whitespace before and after the text does not change the summary. *)
Theorem surrounding_whitespace_ignored (before text after : list N) :
  Forall (λ c, isspace c = true) before →
  Forall (λ c, isspace c = true) after →
  simple_summarize (before ++ text ++ after) = simple_summarize text.
Proof.
  intros Hb Ha.
  by rewrite !simple_summarize_selected, sentences_blank_l, sentences_blank_r.
Qed.

Lemma surrounding_whitespace_ignored_witness :
  simple_summarize ([NEWLINE; SPACE] ++ lit "Hi there. Bye" ++ [9; NEWLINE])
  = simple_summarize (lit "Hi there. Bye").
Proof.
  apply (surrounding_whitespace_ignored [NEWLINE; SPACE] (lit "Hi there. Bye")
           [9; NEWLINE]); repeat constructor.
Defined.

(** X7. Newlines count as spaces: replacing the newlines of a text by spaces
    beforehand gives the same summary. *)
Theorem newline_as_space (text : list N) :
  simple_summarize (replace NEWLINE SPACE text) = simple_summarize text.
Proof.
  rewrite !simple_summarize_selected. unfold sentences.
  by rewrite replace_idemp.
Qed.

(** X8. The summary is extractive: every sentence is a contiguous piece of
    the text (after its newlines became spaces), without a period, without
    whitespace at either end. *)
Theorem sentences_extractive (text s : list N) :
  s ∈ sentences text →
  (∃ pre post, replace NEWLINE SPACE text = pre ++ s ++ post)
  ∧ s ≠ [] ∧ (PERIOD ∉ s) ∧ strip s = s.
Proof.
  intros Hs. split.
  - unfold sentences in Hs. apply list_elem_of_fmap in Hs as (f & -> & Hf).
    apply list_elem_of_filter in Hf as [_ Hf].
    apply split_infix in Hf as (pre & post & ->).
    destruct (strip_infix f) as (pre' & post' & Hf).
    exists (pre ++ pre'), (post' ++ post).
    rewrite Hf at 1. by rewrite <- !app_assoc.
  - pose proof (sentences_all_clean text) as Hclean.
    rewrite Forall_forall in Hclean.
    by destruct (Hclean s Hs) as (? & ? & ? & _).
Qed.

Lemma sentences_extractive_witness :
  (∃ pre post,
     replace NEWLINE SPACE (lit "One.  Two words . Three")
     = pre ++ lit "Two words" ++ post)
  ∧ lit "Two words" ≠ [] ∧ (PERIOD ∉ lit "Two words")
  ∧ strip (lit "Two words") = lit "Two words".
Proof.
  apply (sentences_extractive (lit "One.  Two words . Three") (lit "Two words")).
  apply (bool_decide_unpack _). vm_compute. exact I.
Defined.

(** ** More on the upload handler *)

Lemma strip_keeps_visible (s : list N) (c : N) :
  c ∈ s → isspace c = false → strip s ≠ [].
Proof.
  intros Hc Hvis. unfold strip.
  destruct (lstrip_cases s) as [Hall|(w & d & t & _ & _ & Hd & ->)].
  - rewrite Forall_forall in Hall. apply Hall in Hc. congruence.
  - by rewrite rstrip_cons.
Qed.

(** X9. The text the upload handler summarizes and stores is never empty
    and never whitespace only, whatever the upload decodes to. *)
Theorem upload_text_never_blank (decode : list byte → list N)
    (file : UploadFile) :
  strip (upload_text decode file) ≠ [] ∧ upload_text decode file ≠ [].
Proof.
  assert (Hs : strip (upload_text decode file) ≠ []).
  { unfold upload_text.
    destruct (negb _ || _) eqn:Hcond; [by vm_compute|].
    apply orb_false_iff in Hcond as [_ Hlen].
    apply Nat.eqb_neq in Hlen. by destruct (strip _). }
  split; [done|]. intros Hnil. by rewrite Hnil in Hs.
Qed.

(** X10. An upload that decodes to periods and whitespace with at least one
    period is not replaced by the placeholder: it is kept as it is, and its
    summary is "No content to summarize.". *)
Theorem period_only_upload (decode : list byte → list N) (file : UploadFile)
    (st : Store) :
  Forall (λ c, isspace c = true ∨ c = PERIOD) (decode (file_bytes file)) →
  PERIOD ∈ decode (file_bytes file) →
  upload_text decode file = decode (file_bytes file)
  ∧ simple_summarize (upload_text decode file) = no_content
  ∧ (outage st = None →
     summarize_file decode file st
     = (Response200 (PSummary (hex 24 (next_id st)) no_content),
        stored st "summary"
          (MSummary (Summary.mk (filename file)
                       (slice_to 10000 (decode (file_bytes file)))
                       no_content)))).
Proof.
  intros Hall Hp.
  assert (Htext : upload_text decode file = decode (file_bytes file)).
  { unfold upload_text.
    pose proof (strip_keeps_visible _ _ Hp eq_refl) as Hs.
    destruct (decode (file_bytes file)) as [|c t]; [by apply elem_of_nil in Hp|].
    cbn [truthy negb orb]. by destruct (strip (c :: t)). }
  assert (Hsum : simple_summarize (upload_text decode file) = no_content)
    by (by rewrite Htext, simple_summarize_selected, sentences_none).
  split_and!; [done..|].
  intros H. by rewrite summarize_file_healthy, Hsum, Htext.
Qed.

Lemma period_only_upload_witness :
  upload_text decode_ignore (mkUpload (lit "dots.txt") [x2e; x2e; x2e; x0a])
  = decode_ignore [x2e; x2e; x2e; x0a]
  ∧ simple_summarize
      (upload_text decode_ignore (mkUpload (lit "dots.txt") [x2e; x2e; x2e; x0a]))
    = no_content.
Proof.
  destruct (period_only_upload decode_ignore
              (mkUpload (lit "dots.txt") [x2e; x2e; x2e; x0a]) empty_store)
    as (H1 & H2 & _).
  - vm_compute. repeat (constructor; [first [by left | by right]|]). constructor.
  - apply (bool_decide_unpack _). vm_compute. exact I.
  - by split.
Defined.

(** ** More on the list and create handlers *)

Lemma matches_singleton k v d :
  matches {[ k := v ]} d ↔ fields d !! k = Some v.
Proof. unfold matches. by rewrite map_Forall_singleton. Qed.

Lemma query_200 name flt limit st docs st' :
  try_except (get_documents name flt limit
                ≫= λ ds, mret (PDocs (stringify_id <$> ds))) st
  = (Response200 (PDocs docs), st') →
  ∃ ds, docs = stringify_id <$> ds.
Proof.
  unfold try_except, mbind, M_bind, get_documents.
  destruct (outage st); simpl; intros [=]; eauto.
Qed.

Lemma stringified_ids ds :
  Forall (λ d, ∃ s, _id d = IdStr s) (stringify_id <$> ds).
Proof. apply Forall_fmap, Forall_forall. intros d _. simpl. eauto. Qed.

(** X11. Every document in the answer of a list endpoint carries its
    identifier as text, never as the store's native identifier, whatever the
    store holds and whatever the filter or limit. *)
Theorem listed_ids_are_text (st st' : Store) (docs : list Document) :
  (∀ topic, list_notes topic st = (Response200 (PDocs docs), st') →
            Forall (λ d, ∃ s, _id d = IdStr s) docs)
  ∧ (∀ tag, list_flashcards tag st = (Response200 (PDocs docs), st') →
            Forall (λ d, ∃ s, _id d = IdStr s) docs)
  ∧ (∀ tag, list_questions tag st = (Response200 (PDocs docs), st') →
            Forall (λ d, ∃ s, _id d = IdStr s) docs)
  ∧ (∀ limit, list_summaries limit st = (Response200 (PDocs docs), st') →
              Forall (λ d, ∃ s, _id d = IdStr s) docs).
Proof.
  split_and!; intros x Hr; apply query_200 in Hr as [ds ->];
    apply stringified_ids.
Qed.

Lemma listed_ids_are_text_witness :
  Forall (λ d, ∃ s, _id d = IdStr s)
    [mkDoc (IdStr (hex 24 0))
       (model_dump (MNote (Note.mk (lit "t") (lit "c") None)))].
Proof.
  destruct (listed_ids_are_text
              (stored empty_store "note" (MNote (Note.mk (lit "t") (lit "c") None)))
              (called (stored empty_store "note"
                         (MNote (Note.mk (lit "t") (lit "c") None))))
              [mkDoc (IdStr (hex 24 0))
                 (model_dump (MNote (Note.mk (lit "t") (lit "c") None)))])
    as (Hnotes & _).
  apply (Hnotes None). reflexivity.
Defined.




Lemma filtered_query name k v st :
  outage st = None → v ≠ [] →
  try_except (get_documents name (filter_if k (Some v)) None
                ≫= λ docs, mret (PDocs (stringify_id <$> docs))) st
  = (Response200
       (PDocs (stringify_id <$>
                 filter (λ d, fields d !! k = Some (VStr v)) (collection st name))),
     called st).
Proof.
  intros H Hv. apply try_except_ok. rewrite query_body_healthy by done.
  destruct v as [|c v]; [done|]. cbn [filter_if truthy].
  do 4 f_equal. apply list_filter_iff. intros d. apply matches_singleton.
Qed.

(** X13. A non-empty topic or tag parameter is an exact-match filter: on an
    available store the listing holds, in store order, exactly the
    documents whose topic (notes) or tag (flashcards, questions) field is
    that text. *)
Theorem filtered_listing (st : Store) (v : list N) :
  outage st = None → v ≠ [] →
  fst (list_notes (Some v) st)
    = Response200
        (PDocs (stringify_id <$>
                  filter (λ d, fields d !! "topic" = Some (VStr v))
                         (collection st "note")))
  ∧ fst (list_flashcards (Some v) st)
    = Response200
        (PDocs (stringify_id <$>
                  filter (λ d, fields d !! "tag" = Some (VStr v))
                         (collection st "flashcard")))
  ∧ fst (list_questions (Some v) st)
    = Response200
        (PDocs (stringify_id <$>
                  filter (λ d, fields d !! "tag" = Some (VStr v))
                         (collection st "question"))).
Proof.
  intros H Hv.
  unfold list_notes, list_flashcards, list_questions,
    list_notes_body, list_flashcards_body, list_questions_body. cbv zeta.
  by rewrite !filtered_query.
Qed.

Lemma filtered_listing_witness :
  fst (list_notes (Some (lit "math"))
         (stored (stored empty_store "note"
                    (MNote (Note.mk (lit "a") (lit "b") (Some (lit "math")))))
                 "note" (MNote (Note.mk (lit "c") (lit "d") None))))
  = Response200
      (PDocs [mkDoc (IdStr (hex 24 0))
                (model_dump
                   (MNote (Note.mk (lit "a") (lit "b") (Some (lit "math")))))]).
Proof.
  destruct (filtered_listing
              (stored (stored empty_store "note"
                         (MNote (Note.mk (lit "a") (lit "b") (Some (lit "math")))))
                      "note" (MNote (Note.mk (lit "c") (lit "d") None)))
              (lit "math") eq_refl) as (Hnotes & _); [done|].
  rewrite Hnotes. vm_compute. reflexivity.
Defined.

(** X14. The summaries listing applies its limit and no filter: on an
    available store, for a positive limit, the answer is the first [limit]
    documents of the summary collection, all of them when there are fewer. *)
Theorem summaries_limited (st : Store) (limit : Z) :
  outage st = None → (0 < limit)%Z →
  ∃ docs,
    fst (list_summaries limit st) = Response200 (PDocs docs)
    ∧ docs = stringify_id <$> take (Z.to_nat limit) (collection st "summary")
    ∧ (Z.of_nat (length docs) ≤ limit)%Z
    ∧ (length docs = length (collection st "summary") `min` Z.to_nat limit)%nat.
Proof.
  intros H Hpos. eexists. split_and!; [|reflexivity| |].
  - unfold list_summaries, list_summaries_body.
    erewrite try_except_ok; [done|].
    by rewrite query_body_healthy, filter_matches_empty.
  - rewrite length_fmap, length_take. lia.
  - rewrite length_fmap, length_take. lia.
Qed.

Lemma summaries_limited_witness :
  ∃ docs,
    fst (list_summaries 1
           (stored (stored empty_store "summary"
                      (MSummary (Summary.mk (lit "a") (lit "x") (lit "x."))))
                   "summary" (MSummary (Summary.mk (lit "b") (lit "y") (lit "y.")))))
    = Response200 (PDocs docs)
    ∧ length docs = 1%nat.
Proof.
  destruct (summaries_limited
              (stored (stored empty_store "summary"
                         (MSummary (Summary.mk (lit "a") (lit "x") (lit "x."))))
                      "summary" (MSummary (Summary.mk (lit "b") (lit "y") (lit "y."))))
              1 eq_refl) as (docs & Hr & -> & _ & Hlen); [lia|].
  eexists. split; [exact Hr|]. rewrite Hlen. reflexivity.
Defined.

(** ** More on validation *)

(** X15. A Question request is valid exactly when question, options and
    answer_index are present, the options are at least two and the
    answer_index is not negative; the validated model then holds the
    request's values unchanged, and tag may be absent. *)
Theorem question_valid_iff (b : QuestionIn.t) (q : Question.t) :
  validate_Question b = inr q ↔
  QuestionIn.question b = Some (Question.question q)
  ∧ QuestionIn.options b = Some (Question.options q)
  ∧ QuestionIn.answer_index b = Some (Question.answer_index q)
  ∧ QuestionIn.tag b = Question.tag q
  ∧ (2 ≤ length (Question.options q))%nat
  ∧ (0 ≤ Question.answer_index q)%Z.
Proof. apply validate_Question_inr. Qed.

Lemma question_valid_iff_witness :
  validate_Question
    (QuestionIn.mk (Some (lit "ok?")) (Some [lit "yes"; lit "no"]) (Some 1%Z) None)
  = inr (Question.mk (lit "ok?") [lit "yes"; lit "no"] 1 None).
Proof.
  apply (question_valid_iff
           (QuestionIn.mk (Some (lit "ok?")) (Some [lit "yes"; lit "no"])
              (Some 1%Z) None)
           (Question.mk (lit "ok?") [lit "yes"; lit "no"] 1 None)).
  simpl. split_and!; [reflexivity..|lia|lia].
Defined.

(** X16. A create request that fails validation has no effect: the endpoint
    answers with the validation errors and the store is exactly as before;
    a request that passes makes exactly one adapter call. *)
Theorem invalid_post_no_effect (st : Store) :
  (∀ b, match validate_Note b with
        | inl errors => post_notes b st = (RequestValidationError errors, st)
        | inr n => calls (snd (post_notes b st)) = S (calls st)
        end)
  ∧ (∀ b, match validate_Flashcard b with
          | inl errors => post_flashcards b st = (RequestValidationError errors, st)
          | inr c => calls (snd (post_flashcards b st)) = S (calls st)
          end)
  ∧ (∀ b, match validate_Question b with
          | inl errors => post_questions b st = (RequestValidationError errors, st)
          | inr q => calls (snd (post_questions b st)) = S (calls st)
          end).
Proof.
  split_and!; intros b;
    unfold post_notes, post_flashcards, post_questions, validated;
    destruct (_ b) as [errors|m]; try done;
    unfold create_note, create_flashcard, create_question, try_except,
      create_note_body, create_flashcard_body, create_question_body,
      mbind, M_bind, create_document;
    by destruct (outage st).
Qed.

(** ** The diagnostic endpoint *)

Lemma getenv_truthy_true env name :
  getenv_truthy env name = true ↔ ∃ v, env !! name = Some v ∧ v ≠ [].
Proof.
  unfold getenv_truthy. destruct (env !! name) as [v|].
  - rewrite truthy_true. split; [eauto|]. by intros (? & [= <-] & ?).
  - split; [done|]. by intros (? & [=] & _).
Qed.

(** The four shapes of a [db] handle the handler tells apart. *)
Lemma test_database_cases db env :
  let r := test_database db env in
  match db with
  | None =>
      Diag.database r = WARNING ++ lit "  Available but not initialized"
      ∧ Diag.connection_status r = lit "Not Connected"
      ∧ Diag.collections r = []
  | Some h =>
      match db_name h, list_collection_names h with
      | AttrRaises e, _ =>
          Diag.database r = CROSS :: lit " Error: " ++ take 50 (str_exn e)
          ∧ Diag.connection_status r = lit "Not Connected"
          ∧ Diag.collections r = []
      | _, inl e =>
          Diag.database r
            = WARNING ++ lit "  Connected but Error: " ++ take 50 (str_exn e)
          ∧ Diag.connection_status r = lit "Connected"
          ∧ Diag.collections r = []
      | _, inr names =>
          Diag.database r = CHECK :: lit " Connected & Working"
          ∧ Diag.connection_status r = lit "Connected"
          ∧ Diag.collections r = take 10 names
      end
  end.
Proof.
  destruct db as [[[|v|e] [e'|names]]|]; done.
Qed.

(** X17. The database_url and database_name entries of the diagnostic
    report tell only whether the environment variables are set to a
    non-empty value: they read "Set" exactly then and "Not Set" otherwise,
    whatever the store handle is, and never show the database's name. *)
Theorem diag_env_entries (db : option DbHandle) (env : gmap string (list N)) :
  (Diag.database_url (test_database db env) = Some (CHECK :: lit " Set")
   ↔ ∃ v, env !! "DATABASE_URL" = Some v ∧ v ≠ [])
  ∧ (Diag.database_url (test_database db env) = Some (CROSS :: lit " Not Set")
     ↔ env !! "DATABASE_URL" = None ∨ env !! "DATABASE_URL" = Some [])
  ∧ (Diag.database_name (test_database db env) = Some (CHECK :: lit " Set")
     ↔ ∃ v, env !! "DATABASE_NAME" = Some v ∧ v ≠ [])
  ∧ (Diag.database_name (test_database db env) = Some (CROSS :: lit " Not Set")
     ↔ env !! "DATABASE_NAME" = None ∨ env !! "DATABASE_NAME" = Some []).
Proof.
  assert (Hurl : Diag.database_url (test_database db env)
                 = Some (set_or_not (getenv_truthy env "DATABASE_URL")))
    by done.
  assert (Hname : Diag.database_name (test_database db env)
                  = Some (set_or_not (getenv_truthy env "DATABASE_NAME")))
    by done.
  rewrite Hurl, Hname. rewrite <- !getenv_truthy_true.
  unfold getenv_truthy.
  split_and!.
  - destruct (env !! "DATABASE_URL") as [[|c v]|]; simpl; split; done.
  - destruct (env !! "DATABASE_URL") as [[|c v]|]; simpl; split;
      try done; auto; by intros [|].
  - destruct (env !! "DATABASE_NAME") as [[|c v]|]; simpl; split; done.
  - destruct (env !! "DATABASE_NAME") as [[|c v]|]; simpl; split;
      try done; auto; by intros [|].
Qed.

(** X18. The initial "Not Available" text of the database entry never
    reaches the caller: every path through the handler overwrites it. *)
Theorem diag_database_overwritten (db : option DbHandle)
    (env : gmap string (list N)) :
  Diag.database (test_database db env) ≠ CROSS :: lit " Not Available".
Proof.
  pose proof (test_database_cases db env) as H. cbv zeta in H.
  destruct db as [[[|v|e] [e'|names]]|]; cbn [db_name list_collection_names] in H;
    destruct H as (-> & _); done.
Qed.

(** X19. The report lists at most ten collection names: the first ten the
    store returns when the handle is present, its name readable and the
    listing succeeds, and none in every other case. *)
Theorem diag_collections (db : option DbHandle) (env : gmap string (list N)) :
  (length (Diag.collections (test_database db env)) ≤ 10)%nat
  ∧ Diag.collections (test_database db env)
    = match db with
      | Some (mkDb (AttrRaises _) _) => []
      | Some (mkDb _ (inr names)) => take 10 names
      | _ => []
      end.
Proof.
  pose proof (test_database_cases db env) as H. cbv zeta in H.
  destruct db as [[[|v|e] [e'|names]]|]; cbn [db_name list_collection_names] in H;
    destruct H as (_ & _ & ->); split; try done; simpl; try lia;
    rewrite length_take; lia.
Qed.

(** X20. The report says "Connected" exactly when a store handle exists
    and reading its name does not raise; a failing collection listing does
    not change that. *)
Theorem diag_connected_iff (db : option DbHandle) (env : gmap string (list N)) :
  Diag.connection_status (test_database db env) = lit "Connected"
  ↔ ∃ h, db = Some h ∧ ∀ e, db_name h ≠ AttrRaises e.
Proof.
  pose proof (test_database_cases db env) as H. cbv zeta in H.
  destruct db as [[[|v|e] [e'|names]]|]; cbn [db_name list_collection_names] in H;
    destruct H as (_ & -> & _); split;
    try (intros _; eexists; split; [done|]; by intros e0);
    try done.
  - intros (h & [= <-] & Hn). by destruct (Hn e).
  - intros (h & [= <-] & Hn). by destruct (Hn e).
  - by intros (h & [=] & _).
Qed.

Lemma diag_connected_iff_witness :
  Diag.connection_status
    (test_database (Some (mkDb NoAttr (inl (Exception (lit "down"))))) ∅)
  = lit "Connected".
Proof.
  apply (diag_connected_iff
           (Some (mkDb NoAttr (inl (Exception (lit "down"))))) ∅).
  eexists. split; [reflexivity|]. intros e. discriminate.
Defined.

(** X21. A failure of the collection listing is reported in the database
    entry with at most the first 50 characters of its text; the report
    still says "Connected" and lists no collection. *)
Theorem diag_listing_failure (h : DbHandle) (e : exn)
    (env : gmap string (list N)) :
  list_collection_names h = inl e →
  (∀ e', db_name h ≠ AttrRaises e') →
  Diag.database (test_database (Some h) env)
    = WARNING ++ lit "  Connected but Error: " ++ take 50 (str_exn e)
  ∧ (length (Diag.database (test_database (Some h) env)) ≤ 75)%nat
  ∧ Diag.connection_status (test_database (Some h) env) = lit "Connected"
  ∧ Diag.collections (test_database (Some h) env) = [].
Proof.
  intros Hl Hn.
  pose proof (test_database_cases (Some h) env) as H. cbv zeta in H.
  destruct h as [[|v|e0] [e'|names]]; cbn [db_name list_collection_names] in *; simplify_eq;
    try (by destruct (Hn e0));
    destruct H as (-> & -> & ->); split_and!; try done;
    rewrite !length_app, length_take;
    change (length WARNING) with 2%nat;
    change (length (lit "  Connected but Error: ")) with 23%nat; lia.
Qed.

Lemma diag_listing_failure_witness :
  Diag.database
    (test_database (Some (mkDb (Attr (lit "app")) (inl (Exception (lit "timed out")))))
       ∅)
  = WARNING ++ lit "  Connected but Error: " ++ lit "timed out".
Proof.
  destruct (diag_listing_failure
              (mkDb (Attr (lit "app")) (inl (Exception (lit "timed out"))))
              (Exception (lit "timed out")) ∅ eq_refl) as (H & _); [done|].
  exact H.
Defined.

Lemma simple_summarize_no_period_witness :
  simple_summarize ([SPACE; 104; 105; NEWLINE; 121; 111; 117; SPACE])
  = strip (replace NEWLINE SPACE [SPACE; 104; 105; NEWLINE; 121; 111; 117; SPACE])
    ++ [PERIOD].
Proof.
  apply (simple_summarize_no_period
           [SPACE; 104; 105; NEWLINE; 121; 111; 117; SPACE]).
  - apply (bool_decide_unpack _). vm_compute. exact I.
  - vm_compute. discriminate.
Defined.
